(** * n-back sequence generation: a shallow embedding of old.py and nback.py

    Python integers are unbounded and are modelled by [Z]; a Python [dict]
    with integer keys is a [gmap Z Z]; a Python [list] is a [list] in the
    same order (index 0 first, [append]/[pop] act on the end).  A raised
    exception is a value of [res]: every function that can raise returns
    [res A]. *)

From Stdlib Require Import ZArith Lia.
From stdpp Require Import base numbers option list gmap strings pretty.

Open Scope Z_scope.

(** ** Exceptions and the result type *)

Inductive exn : Type :=
| ValueError (msg : string)
| TypeError
| NameError
| AttributeError
| IndexError
| KeyError
| SystemExit
| UnsatisfiableException.

Inductive res (A : Type) : Type :=
| Ok (a : A)
| Raise (e : exn).
Arguments Ok {A} a.
Arguments Raise {A} e.

Definition bind {A B : Type} (m : res A) (k : A → res B) : res B :=
  match m with
  | Ok a => k a
  | Raise e => Raise e
  end.

Notation "'let!' x ':=' m 'in' k" := (bind m (fun x => k))
  (at level 10, x pattern, m at level 100, k at level 200).

Definition is_ValueError {A : Type} (r : res A) : Prop :=
  match r with
  | Raise (ValueError _) => True
  | _ => False
  end.

(** ** Python built-ins used by the program *)

(** [l[i]] for a Python list: a negative index counts from the end, an index
    out of range raises [IndexError]. *)
Definition py_index {A : Type} (l : list A) (i : Z) : res A :=
  let len := Z.of_nat (length l) in
  let j := if i <? 0 then len + i else i in
  if (j <? 0) || (len <=? j) then Raise IndexError
  else match l !! Z.to_nat j with
       | Some x => Ok x
       | None => Raise IndexError
       end.

(** [d[k]] for a Python dict: a missing key raises [KeyError]. *)
Definition py_getitem (d : gmap Z Z) (k : Z) : res Z :=
  match d !! k with
  | Some v => Ok v
  | None => Raise KeyError
  end.

(** [range(k)]: the list [0, 1, ..., k-1], empty when [k <= 0]. *)
Definition py_range (k : Z) : list Z :=
  Z.of_nat <$> seq 0 (Z.to_nat k).

(** [d.keys()], [d.values()] and [d.items()], in the iteration order of the
    dictionary (an order Python leaves unspecified; here the order of
    [map_to_list]). *)
Definition py_keys (d : gmap Z Z) : list Z := (map_to_list d).*1.
Definition py_values (d : gmap Z Z) : list Z := (map_to_list d).*2.

(** [sum(l)] *)
Definition py_sum (l : list Z) : Z := foldr Z.add 0 l.

(** [min(l)] and [max(l)]: both raise [ValueError] on an empty list. *)
Definition py_min (l : list Z) : res Z :=
  match l with
  | [] => Raise (ValueError "min() arg is an empty sequence")
  | x :: l' => Ok (foldr Z.min x l')
  end.

Definition py_max (l : list Z) : res Z :=
  match l with
  | [] => Raise (ValueError "max() arg is an empty sequence")
  | x :: l' => Ok (foldr Z.max x l')
  end.

(** [l.pop()]: removes and returns the last element, [IndexError] on an
    empty list. *)
Definition py_pop {A : Type} (l : list A) : res (list A * A) :=
  match last l with
  | Some x => Ok (removelast l, x)
  | None => Raise IndexError
  end.

(** [l.remove(x)]: removes the first occurrence of [x], [ValueError] when
    there is none. *)
Fixpoint py_remove (x : Z) (l : list Z) : res (list Z) :=
  match l with
  | [] => Raise (ValueError "list.remove(x): x not in list")
  | y :: l' =>
      if y =? x then Ok l'
      else let! r := py_remove x l' in Ok (y :: r)
  end.

(** [random.choice(l)]: [IndexError] on an empty list; otherwise the element
    at an index drawn from [0 .. len(l) - 1], the draw being [r mod len(l)]
    for a number [r] supplied by the random source. *)
Definition random_choice {A : Type} (r : nat) (l : list A) : res A :=
  match l !! (r `mod` length l)%nat with
  | Some x => Ok x
  | None => Raise IndexError
  end.

(** A [for] loop whose body may raise, threading the loop state. *)
Fixpoint for_each {A S : Type} (body : A → S → res S) (l : list A) (s : S)
  : res S :=
  match l with
  | [] => Ok s
  | x :: l' => let! s' := body x s in for_each body l' s'
  end.

(** [any(p(x) for x in l)] *)
Definition py_any {A : Type} (p : A → bool) (l : list A) : bool := existsb p l.

(** * old.py *)

Module Old.

Definition FILLER : Z := 0.

(** An entry of [self.items]: the dict with keys ['type'], ['stim'] and
    ['types_available']. *)
Record item : Type := Item {
  type : Z;
  stim : Z;
  types_available : list Z
}.

(** The attributes of an [Nback] object.  [currentItem] is rebound at the
    start of every [add_item] and is threaded through the functions below as
    a local value; [trace] is never used and [types_strings] only labels the
    types for printing (key [n] is "target", key [FILLER] is "filler", the
    other keys of [lures] are "<k>lure"). *)
Record Nback : Type := mkNback {
  n : Z;
  max_repeat : Z;
  items : list item;
  targets : Z;
  fillers : Z;
  lures : gmap Z Z;
  types_ints : gmap Z Z;
  seqlength : Z;
  wordlist : list Z;
  backtrack_count : Z
}.

Definition with_items (l : list item) (self : Nback) : Nback :=
  {| n := n self; max_repeat := max_repeat self; items := l;
     targets := targets self; fillers := fillers self; lures := lures self;
     types_ints := types_ints self; seqlength := seqlength self;
     wordlist := wordlist self; backtrack_count := backtrack_count self |}.

Definition with_types_ints (m : gmap Z Z) (self : Nback) : Nback :=
  {| n := n self; max_repeat := max_repeat self; items := items self;
     targets := targets self; fillers := fillers self; lures := lures self;
     types_ints := m; seqlength := seqlength self;
     wordlist := wordlist self; backtrack_count := backtrack_count self |}.

Definition with_wordlist (w : list Z) (self : Nback) : Nback :=
  {| n := n self; max_repeat := max_repeat self; items := items self;
     targets := targets self; fillers := fillers self; lures := lures self;
     types_ints := types_ints self; seqlength := seqlength self;
     wordlist := w; backtrack_count := backtrack_count self |}.

Definition with_backtrack_count (c : Z) (self : Nback) : Nback :=
  {| n := n self; max_repeat := max_repeat self; items := items self;
     targets := targets self; fillers := fillers self; lures := lures self;
     types_ints := types_ints self; seqlength := seqlength self;
     wordlist := wordlist self; backtrack_count := c |}.

(** [len(self.items)] *)
Definition len_items (self : Nback) : Z := Z.of_nat (length (items self)).

(** [Nback.__init__] (lines 50-84).  [lures[i] for i in lures] visits the
    values of the dictionary in the order of its keys. *)
Definition init (n targets fillers : Z) (lures : gmap Z Z) (max_repeat : Z)
  : res Nback :=
  if n <? 1 then Raise (ValueError "n level must be >= 1") else
  if (targets <? 0) || (fillers <? 0)
     || py_any (λ c, c <? 0) (py_values lures)
  then Raise (ValueError "Cannot have negative numbers of items") else
  let! m := py_min (py_keys lures ++ [n]) in
  if fillers <? m
  then Raise (ValueError "Number of fillers must be >= the lesser of the n-level and the lowest lure level") else
  if py_any (λ i, i <? 0) (py_keys lures)
  then Raise (ValueError "Lure levels must be positive numbers") else
  if max_repeat <? 0 then Raise (ValueError "max_repeat cannot be negative") else
  let! _ :=
    if max_repeat =? 1 then
      if n =? 1
      then Raise (ValueError "n-level and max_repeat cannot both be set to 1")
      else
        match lures !! 1 with
        | Some c =>
            if 0 <? c
            then Raise (ValueError "max_repeat cannot be set to 1 when there are level-1 lures")
            else Ok ()
        | None => Ok ()
        end
    else Ok () in
  let types_ints := <[n := targets]> (<[FILLER := fillers]> lures) in
  let seqlength := fillers + targets + py_sum (py_values lures) in
  let! mx := py_max ((λ kv : Z * Z, kv.1 + kv.2) <$> map_to_list lures) in
  if seqlength <? mx
  then Raise (ValueError "Lure levels/numbers are too high for sequence of length")
  else
    Ok {| n := n; max_repeat := max_repeat; items := [];
          targets := targets; fillers := fillers; lures := lures;
          types_ints := types_ints; seqlength := seqlength;
          wordlist := reverse (py_range fillers); backtrack_count := 0 |}.

(** [items_different(index1, index2)] (lines 178-181) *)
Definition items_different (self : Nback) (index1 index2 : Z) : res bool :=
  let! a := py_index (items self) index1 in
  let! b := py_index (items self) index2 in
  Ok (negb (stim a =? stim b)).

(** [repeat_limit_reached()] (lines 166-176).  In the last branch the source
    calls [self.items_different(range(-self.max_repeat, 0))], one argument
    where the method takes two: the call raises [TypeError]. *)
Definition repeat_limit_reached (self : Nback) : res bool :=
  if max_repeat self =? 0 then Ok false else
  if len_items self <? max_repeat self then Ok false
  else if max_repeat self =? 1 then Ok true
  else Raise TypeError.

(** The body of the loop over [self.lures.keys()] in [get_types]
    (lines 156-163). *)
Definition get_types_lure (self : Nback) (lure_level : Z)
    (available_types : list Z) : res (list Z) :=
  let! c := py_getitem (types_ints self) lure_level in
  if (0 <? c) && (lure_level <=? len_items self) then
    let! d1 :=
      if n self <=? len_items self
      then items_different self (- n self) (- lure_level)
      else Ok true in
    let! limit := repeat_limit_reached self in
    let! d2 :=
      if limit then items_different self (-1) (- lure_level) else Ok true in
    Ok (if d1 && d2 then available_types ++ [lure_level]
        else available_types)
  else Ok available_types.

(** [get_types()] (lines 138-164) *)
Definition get_types (self : Nback) : res (list Z) :=
  let available_types := [] in
  let! cf := py_getitem (types_ints self) FILLER in
  let available_types :=
    if 0 <? cf then available_types ++ [FILLER] else available_types in
  let! ct := py_getitem (types_ints self) (n self) in
  let! available_types :=
    if (0 <? ct) && (n self <=? len_items self) then
      let! limit := repeat_limit_reached self in
      let! target_available :=
        if limit then items_different self (-1) (- n self) else Ok true in
      Ok (if target_available then available_types ++ [n self]
          else available_types)
    else Ok available_types in
  for_each (get_types_lure self) (py_keys (lures self)) available_types.

(** [get_stim()] (lines 127-136), for the current item's type. *)
Definition get_stim (self : Nback) (item_type : Z) : res (Nback * Z) :=
  if item_type =? FILLER then
    let! (w, s) := py_pop (wordlist self) in
    Ok (with_wordlist w self, s)
  else
    let! it := py_index (items self) (- item_type) in
    Ok (self, stim it).

(** [choose_random_itemtype()] (lines 106-114): every available type is
    repeated as often as its remaining count and one entry is drawn. *)
Definition choose_random_itemtype (r : nat) (self : Nback)
    (available : list Z) : res Z :=
  let! expanded :=
    for_each
      (λ itemtype expanded,
         let! c := py_getitem (types_ints self) itemtype in
         Ok (expanded ++ replicate (Z.to_nat c) itemtype))
      available [] in
  random_choice r expanded.

(** [backtrack()] (lines 116-125); returns the object and the popped item,
    which becomes [currentItem]. *)
Definition backtrack (self : Nback) : res (Nback * item) :=
  let self := with_backtrack_count (backtrack_count self + 1) self in
  let! (rest, cur) := py_pop (items self) in
  let self := with_items rest self in
  let! c := py_getitem (types_ints self) (type cur) in
  let self := with_types_ints (<[type cur := c + 1]> (types_ints self)) self in
  let self :=
    if type cur =? FILLER
    then with_wordlist (wordlist self ++ [stim cur]) self
    else self in
  let! ta := py_remove (type cur) (types_available cur) in
  Ok (self, {| type := type cur; stim := stim cur; types_available := ta |}).

(** The loop [while self.currentItem['types_available'] == []] of
    [add_item] (lines 95-100).  An [IndexError] of [backtrack] (the pop from
    an empty [items]) is caught: the source prints a message and calls
    [exit()].  Every round pops one item, so [length items] rounds are
    enough; [None] stands for a round beyond that bound. *)
Fixpoint backtrack_loop (k : nat) (self : Nback) (available : list Z)
  : option (res (Nback * list Z)) :=
  match available with
  | _ :: _ => Some (Ok (self, available))
  | [] =>
      match backtrack self with
      | Raise IndexError => Some (Raise SystemExit)
      | Raise e => Some (Raise e)
      | Ok (self', cur) =>
          match k with
          | O => None
          | S k' => backtrack_loop k' self' (types_available cur)
          end
      end
  end.

(** [add_item()] (lines 91-104); [r] is the draw of [random.choice]. *)
Definition add_item (r : nat) (self : Nback) : option (res Nback) :=
  match get_types self with
  | Raise e => Some (Raise e)
  | Ok available =>
      match backtrack_loop (length (items self)) self available with
      | None => None
      | Some (Raise e) => Some (Raise e)
      | Some (Ok (self, available)) =>
          Some (
            let! ty := choose_random_itemtype r self available in
            let! c := py_getitem (types_ints self) ty in
            let self :=
              with_types_ints (<[ty := c - 1]> (types_ints self)) self in
            let! (self, s) := get_stim self ty in
            Ok (with_items
                  (items self ++
                   [{| type := ty; stim := s; types_available := available |}])
                  self))
      end
  end.

(** [set_items()] (lines 86-89).  The list [rs] holds the draws of the
    random source, one for each call of [add_item]; [None] means that the
    loop is still running when the draws are used up. *)
Fixpoint set_items (rs : list nat) (self : Nback) : option (res Nback) :=
  if len_items self <? seqlength self then
    match rs with
    | [] => None
    | r :: rs' =>
        match add_item r self with
        | None => None
        | Some (Raise e) => Some (Raise e)
        | Some (Ok self') => set_items rs' self'
        end
    end
  else Some (Ok self).

End Old.

(** * nback.py *)

Module New.

Record Nback : Type := mkNback {
  _level : Z;
  _targets : Z;
  _fillers : Z;
  _lures : gmap Z Z;
  _max_repeat : Z;
  _pairs : list Z;
  _length : Z;
  _unique : Z
}.

(** A method call on the argument [lures], whose default is [None]: calling
    a dict method on [None] raises [AttributeError]. *)
Definition deref (lures : option (gmap Z Z)) : res (gmap Z Z) :=
  match lures with
  | Some d => Ok d
  | None => Raise AttributeError
  end.

(** [Nback.__init__] (lines 40-79) *)
Definition init (level targets fillers : Z) (lures : option (gmap Z Z))
    (max_repeat : Z) : res Nback :=
  if level <? 1 then Raise (ValueError "n level must be >= 1") else
  let! negative :=
    if (targets <? 0) || (fillers <? 0) then Ok true
    else
      let! d := deref lures in
      let! m := py_min (py_values d) in
      Ok (m <? 0) in
  if negative : bool
  then Raise (ValueError "Cannot have negative numbers of items") else
  let! d := deref lures in
  let! m := py_min (py_keys d ++ [level]) in
  if fillers <? m
  then Raise (ValueError "Need more fillers than lowest lure / n level") else
  let! m := py_min (py_keys d) in
  if m <=? 0
  then Raise (ValueError "Lure levels must be positive numbers") else
  if max_repeat <? 0 then Raise (ValueError "max_repeat cannot be negative") else
  let! _ :=
    if max_repeat =? 1 then
      if level =? 1
      then Raise (ValueError "max_repeat and n-level cannot both be 1")
      else
        (* lures.get(1, 1) > 0 *)
        if 0 <? default 1 (d !! 1)
        then Raise (ValueError "max_repeat cannot be 1 with 1-lures")
        else Ok ()
    else Ok () in
  (* self._lures = lures or {}: an empty dict is replaced by an empty dict *)
  let _lures := d in
  let _pairs :=
    replicate (Z.to_nat targets) level ++
    concat ((λ kv : Z * Z, replicate (Z.to_nat kv.2) kv.1)
              <$> map_to_list _lures) in
  let _length := Z.of_nat (length _pairs) + fillers in
  let! mx := py_max ((λ kv : Z * Z, kv.1 + kv.2) <$> map_to_list _lures) in
  if _length <? mx
  then Raise (ValueError "Lure levels / counts too high for length")
  else
    Ok {| _level := level; _targets := targets; _fillers := fillers;
          _lures := _lures; _max_repeat := max_repeat; _pairs := _pairs;
          _length := _length; _unique := fillers |}.

(** [Nback.place] (lines 93-135), as it is written: [set(range())] calls
    [range] without an argument, which raises [TypeError], and it is
    evaluated whenever [available] is [None] or empty; the name
    [voilates_constraints] is bound nowhere, so the first round of the loop
    over a non-empty [spots] raises [NameError].  The recursive call and the
    final [raise UnsatisfiableException] are never reached. *)
Definition place (fillers : Z) (pairs : list Z) (available : option (gset Z))
    (item : Z) : res (list (Z * Z)) :=
  match available with
  | None => Raise TypeError
  | Some a =>
      if bool_decide (a = ∅) then Raise TypeError
      else if (fillers =? 0) && (Z.of_nat (length pairs) =? 0) then Ok []
      else Raise NameError
  end.

(** [sorted] on a list of pairs of integers (lexicographic order). *)
Definition pair_leb (a b : Z * Z) : bool :=
  (a.1 <? b.1) || ((a.1 =? b.1) && (a.2 <=? b.2)).

Fixpoint insert_sorted (a : Z * Z) (l : list (Z * Z)) : list (Z * Z) :=
  match l with
  | [] => [a]
  | b :: l' => if pair_leb a b then a :: l else b :: insert_sorted a l'
  end.

Definition sorted (l : list (Z * Z)) : list (Z * Z) :=
  foldr insert_sorted [] l.

(** [Nback.sequence] (lines 81-90); [shuffled] is the result of
    [random.sample(tokens, len(tokens))].  The message of the [ValueError]
    is kept as the format string, without the number filled in. *)
Definition sequence {T : Type} (self : Nback) (tokens shuffled : list T)
  : res (list T) :=
  if Z.of_nat (length tokens) <? _unique self
  then Raise (ValueError "Need at least %s tokens") else
  let tokens := shuffled in
  let! placements := place (_fillers self) (_pairs self) None 0 in
  for_each (λ (p : Z * Z) out, let! t := py_index tokens p.2 in Ok (out ++ [t]))
    (sorted placements) [].

End New.

(** * Properties of the sequences of old.py *)

Module OldSpec.
Import Old.

(** The item and the stimulus at position [i] of a sequence (positions are
    counted from 0; there is nothing at a negative position). *)
Definition item_at (l : list item) (i : Z) : option item :=
  if i <? 0 then None else l !! Z.to_nat i.

Definition stimulus (l : list item) (i : Z) : option Z :=
  stim <$> item_at l i.

(** The kinds of items, as [types_strings] labels them: the key [n] is
    "target", the key [FILLER] is "filler", and a key [d] of [lures] other
    than these two is "<d>lure". *)
Definition is_filler (it : item) : Prop := type it = FILLER.

Definition is_target (self : Nback) (it : item) : Prop := type it = n self.

Definition is_lure (self : Nback) (d : Z) (it : item) : Prop :=
  type it = d ∧ d ∈ dom (lures self) ∧ d ≠ n self ∧ d ≠ FILLER.

(** The stimuli of the fillers of a sequence, in order. *)
Definition filler_stims (l : list item) : list Z :=
  stim <$> filter is_filler l.

(** [admissible self t]: what [get_types] has checked of a type [t] that it
    returns for the next item of [self]. *)
Definition admissible (self : Nback) (t : Z) : Prop :=
  t = FILLER ∨
  (0 < t ∧ t ≤ len_items self ∧
   (∃ limit, repeat_limit_reached self = Ok limit ∧
      (limit = true → items_different self (-1) (- t) = Ok true)) ∧
   (t = n self ∨
    (t ∈ dom (lures self) ∧
     (n self ≤ len_items self →
      items_different self (- n self) (- t) = Ok true)))).

(** [placed_ok self p it]: the item [it] may follow the items [p]: its
    type is one of its available types, these were admissible after [p], and
    an item that is not a filler repeats the stimulus found [type it]
    positions back. *)
Definition placed_ok (self : Nback) (p : list item) (it : item) : Prop :=
  type it ∈ types_available it ∧
  Forall (admissible (with_items p self)) (types_available it) ∧
  (type it ≠ FILLER →
   ∃ src, py_index p (- type it) = Ok src ∧ stim src = stim it).

Inductive wf_items (self : Nback) : list item → Prop :=
| wf_nil : wf_items self []
| wf_snoc p it :
    wf_items self p → placed_ok self p it → wf_items self (p ++ [it]).

(** The parameters of an accepted request. *)
Definition params_ok (self : Nback) : Prop :=
  1 ≤ n self ∧ 0 ≤ max_repeat self ∧ 0 ≤ fillers self ∧
  ∀ k, k ∈ dom (lures self) → 0 ≤ k.

(** The attributes that the search never changes. *)
Definition same_request (a b : Nback) : Prop :=
  n a = n b ∧ max_repeat a = max_repeat b ∧ targets a = targets b ∧
  fillers a = fillers b ∧ lures a = lures b ∧ seqlength a = seqlength b.

(** A request to old.py: the object is constructed and [set_items()] is
    called on it, with the draws [rs] of the random source. *)
Definition generate (nn t f : Z) (l : gmap Z Z) (m : Z) (rs : list nat)
  : option (res Nback) :=
  match init nn t f l m with
  | Ok self => set_items rs self
  | Raise e => Some (Raise e)
  end.

(** The sum of the remaining counts of all types. *)
Definition remaining (self : Nback) : Z := py_sum (py_values (types_ints self)).

(** The invariant of the search; [T] is the sum of the counts the search
    starts with. *)
Record Inv (T : Z) (self : Nback) : Prop := mkInv {
  inv_params : params_ok self;
  inv_items : wf_items self (items self);
  inv_wordlist :
    wordlist self ++ reverse (filler_stims (items self))
    = reverse (py_range (fillers self));
  inv_counts : ∀ k c, types_ints self !! k = Some c → 0 ≤ c;
  inv_total : remaining self + len_items self = T
}.

(** How many items of [l] have the type [t]. *)
Definition occurrences (t : Z) (l : list item) : Z :=
  Z.of_nat (length (filter (λ it, type it = t) l)).

(** Every type of [av] has a positive remaining count. *)
Definition live (self : Nback) (av : list Z) : Prop :=
  ∀ t, t ∈ av → ∃ c, types_ints self !! t = Some c ∧ 0 < c.

(** What keeps the dictionary and list accesses of the search in range:
    [types_ints] has every type as a key, [wordlist] holds as many tokens as
    there are fillers left, and an available type of an item has a positive
    count again once that item and the items above it are taken back. *)
Record Sound (self : Nback) : Prop := mkSound {
  sound_dom :
    ∀ t, t = FILLER ∨ t = n self ∨ t ∈ dom (lures self) →
         is_Some (types_ints self !! t);
  sound_wordlist :
    types_ints self !! FILLER = Some (Z.of_nat (length (wordlist self)));
  sound_avail :
    ∀ p it q, items self = p ++ it :: q →
    ∀ t, t ∈ types_available it →
         ∃ c, types_ints self !! t = Some c ∧ 0 < c + occurrences t (it :: q)
}.

(** A bound on the calls of [add_item] still to come.  The untried types of
    the items, read from position 0 on, are the digits of a number in base
    [b], and a position not yet filled counts as the digit [b - 1] plus one
    unit: every call of [add_item] makes the number smaller. *)
Fixpoint search_measure (b L : nat) (l : list item) : nat :=
  match l with
  | [] => b ^ L
  | it :: l' =>
      length (types_available it) * b ^ (L - 1)
      + search_measure b (L - 1) l'
  end.

Definition draws_needed (self : Nback) : nat :=
  search_measure (4 + size (lures self)) (Z.to_nat (seqlength self))
    (items self).

End OldSpec.

(** * old.py: words and output *)

Module OldOutput.
Import Old.

(** The value under the key ['stim'] of an item: the integer token that
    [get_stim] puts there, or the word that [set_words] replaces it by. *)
Inductive stim_value : Type :=
| IntStim (z : Z)
| WordStim (w : string).

Record pitem : Type := PItem {
  ptype : Z;
  pstim : stim_value;
  ptypes_available : list Z
}.

(** An item as the search leaves it. *)
Definition lift (it : item) : pitem :=
  {| ptype := type it; pstim := IntStim (stim it);
     ptypes_available := types_available it |}.

(** The outcome of [set_words]: [WordlistError] is the exception class of
    old.py (lines 227-240), with its attributes [listlength] and
    [fillers]. *)
Inductive words_res (A : Type) : Type :=
| WOk (a : A)
| WordlistError (listlength fillers : Z)
| WRaise (e : exn).
Arguments WOk {A} a.
Arguments WordlistError {A} listlength fillers.
Arguments WRaise {A} e.

(** [self.types_strings] (lines 76-77): it is set in [__init__] from [n]
    and [lures], which never change; in a [dict] built from a list of pairs
    a later pair replaces an earlier one with the same key. *)
Definition types_strings (self : Nback) : gmap Z string :=
  <[n self := "target"]>
    (<[FILLER := "filler"]>
       (map_imap (λ i _, Some (pretty i +:+ "lure")) (lures self))).

(** The [while] loop of [set_words] (lines 198-206).  [stack] is the list
    [wordlist] with its last element first, so that [wordlist.pop()] takes
    the head; [printed] collects the lines printed for duplicates. *)
Fixpoint select_words (fillers : Z) (stack selected printed : list string)
  : words_res (list string * list string * list string) :=
  if Z.of_nat (length selected) <? fillers then
    match stack with
    | [] => WordlistError (Z.of_nat (length selected)) fillers
    | stim :: stack' =>
        if bool_decide (stim ∈ selected)
        then select_words fillers stack' selected
               (printed ++ ["Removing duplicate word: " +:+ stim])
        else select_words fillers stack' (selected ++ [stim]) printed
    end
  else WOk (selected, stack, printed).

(** The body of the loop [for item in self.items] of [set_words]
    (lines 207-208): a list index that is a word raises [TypeError]. *)
Definition set_word (selected : list string) (it : pitem)
    (done : list pitem) : res (list pitem) :=
  match pstim it with
  | IntStim z =>
      let! w := py_index selected z in
      Ok (done ++ [{| ptype := ptype it; pstim := WordStim w;
                      ptypes_available := ptypes_available it |}])
  | WordStim _ => Raise TypeError
  end.

(** [set_words(wordlist, randomize)] (lines 183-208) on the items [items];
    [shuffled] is what [random.shuffle] makes of [wordlist].  The result
    holds the new items, what is left of the caller's list and the lines
    printed. *)
Definition set_words_items (fillers : Z) (items : list pitem)
    (wordlist shuffled : list string) (randomize : bool)
  : words_res (list pitem * list string * list string) :=
  let wordlist := if randomize then shuffled else wordlist in
  let wordlist := reverse wordlist in
  match select_words fillers (reverse wordlist) [] [] with
  | WOk (selected, stack, printed) =>
      match for_each (set_word selected) items [] with
      | Ok items' => WOk (items', reverse stack, printed)
      | Raise e => WRaise e
      end
  | WordlistError a b => WordlistError a b
  | WRaise e => WRaise e
  end.

(** [set_words] called on an object whose items come from the search. *)
Definition set_words (self : Nback) (wordlist shuffled : list string)
    (randomize : bool) :=
  set_words_items (fillers self) (lift <$> items self)
    wordlist shuffled randomize.

(** The item that [set_words] makes of an item of the search, given the
    selected words. *)
Definition worded (selected : list string) (it : item) (pit : pitem) : Prop :=
  ∃ w, selected !! Z.to_nat (stim it) = Some w ∧
       pit = {| ptype := type it; pstim := WordStim w;
                ptypes_available := types_available it |}.

Definition newline : string := String (Ascii.ascii_of_nat 10) "".

(** One row of the table: [str(row) + ',' + self.types_strings[item['type']]
    + ',' + item['stim']]; adding an integer to a string raises
    [TypeError]. *)
Definition row_text (self : Nback) (row : Z) (it : pitem) : res string :=
  match types_strings self !! ptype it with
  | None => Raise KeyError
  | Some label =>
      match pstim it with
      | WordStim w => Ok (pretty row +:+ "," +:+ label +:+ "," +:+ w)
      | IntStim _ => Raise TypeError
      end
  end.

(** [print_sequence()] (lines 210-216): the lines printed, and the
    exception that stopped the printing, if any. *)
Fixpoint print_rows (self : Nback) (row : Z) (items : list pitem)
    (out : list string) : list string * option exn :=
  match items with
  | [] => (out, None)
  | it :: items' =>
      match row_text self row it with
      | Ok line => print_rows self (row + 1) items' (out ++ [line])
      | Raise e => (out, Some e)
      end
  end.

Definition print_sequence (self : Nback) (items : list pitem)
  : list string * option exn :=
  print_rows self 1 items ["Position,ItemType,Stimulus"].

(** [write(filename)] (lines 218-225): what is written to the file, and
    the exception that stopped the writing, if any. *)
Fixpoint write_rows (self : Nback) (row : Z) (items : list pitem)
    (out : string) : string * option exn :=
  match items with
  | [] => (out, None)
  | it :: items' =>
      match row_text self row it with
      | Ok line => write_rows self (row + 1) items' (out +:+ line +:+ newline)
      | Raise e => (out, Some e)
      end
  end.

Definition write (self : Nback) (items : list pitem) : string * option exn :=
  write_rows self 1 items ("Position,ItemType,Stimulus" +:+ newline).

(** The lines of a file: every line is followed by a newline. *)
Definition join_lines (lines : list string) : string :=
  foldr (λ line rest, line +:+ newline +:+ rest) "" lines.

End OldOutput.

(** * Example objects *)

Module Demo.
Import Old.

(** The object that [Nback(2, 1, 2, {1: 1})] builds, and the object after
    its first call of [add_item] with the draw 0. *)
Definition start : Nback :=
  {| n := 2; max_repeat := 0; items := []; targets := 1; fillers := 2;
     lures := {[1 := 1]};
     types_ints := <[2 := 1]> (<[FILLER := 2]> {[1 := 1]});
     seqlength := 4; wordlist := [1; 0]; backtrack_count := 0 |}.

Definition after_first_item : Nback :=
  match add_item 0 start with
  | Some (Ok self) => self
  | _ => start
  end.

(** The sequence that [set_items] builds from [start] with the draws
    0, 2, 1, 0: a filler, a filler, a 1-lure and a target. *)
Definition finished : Nback :=
  match set_items [0; 2; 1; 0]%nat start with
  | Some (Ok self) => self
  | _ => start
  end.

End Demo.

Module DemoWords.
Import Old OldOutput.

(** The items of [Demo.finished] after [set_words(['a', 'b', 'a', 'c'],
    randomize=False)]. *)
Definition items : list pitem :=
  match set_words Demo.finished ["a"; "b"; "a"; "c"] [] false with
  | WOk (its, _, _) => its
  | _ => []
  end.

End DemoWords.

(** * Validation: the checks of [__init__] in old.py and nback.py *)

(** Turns boolean comparisons on [Z] in the hypotheses into propositions. *)
Ltac zbool :=
  repeat match goal with
  | H : (_ && _) = true |- _ => apply andb_true_iff in H as [? ?]
  | H : (_ || _) = false |- _ => apply orb_false_iff in H as [? ?]
  | H : negb _ = true |- _ => apply negb_true_iff in H
  | H : negb _ = false |- _ => apply negb_false_iff in H
  | H : (_ <? _) = true |- _ => apply Z.ltb_lt in H
  | H : (_ <? _) = false |- _ => apply Z.ltb_ge in H
  | H : (_ <=? _) = true |- _ => apply Z.leb_le in H
  | H : (_ <=? _) = false |- _ => apply Z.leb_gt in H
  | H : (_ =? _) = true |- _ => apply Z.eqb_eq in H
  | H : (_ =? _) = false |- _ => apply Z.eqb_neq in H
  end.

Module Validation.

Lemma py_any_false {A : Type} (p : A → bool) (l : list A) :
  py_any p l = false ↔ ∀ x, x ∈ l → p x = false.
Proof.
  unfold py_any. induction l as [|y l IH]; simpl.
  - split; [intros _ x Hx; inversion Hx | done].
  - rewrite orb_false_iff, IH. split.
    + intros [Hy Hl] x Hx. apply elem_of_cons in Hx as [->|Hx]; auto.
    + intros H. split; [apply H; left | intros x Hx; apply H; by right].
Qed.

Lemma py_any_true {A : Type} (p : A → bool) (l : list A) (x : A) :
  x ∈ l → p x = true → py_any p l = true.
Proof.
  intros Hx Hp. destruct (py_any p l) eqn:E; [done|].
  rewrite py_any_false in E. rewrite (E x Hx) in Hp. done.
Qed.

Lemma elem_of_py_keys (d : gmap Z Z) (k : Z) :
  k ∈ py_keys d ↔ k ∈ dom d.
Proof.
  unfold py_keys. rewrite elem_of_dom, list_elem_of_fmap. split.
  - intros [[k' v] [-> H]]. apply elem_of_map_to_list in H. by exists v.
  - intros [v H]. exists (k, v). split; [done|]. by apply elem_of_map_to_list.
Qed.

Lemma elem_of_py_values (d : gmap Z Z) (v : Z) :
  v ∈ py_values d ↔ ∃ k, d !! k = Some v.
Proof.
  unfold py_values. rewrite list_elem_of_fmap. split.
  - intros [[k v'] [-> H]]. apply elem_of_map_to_list in H. by exists k.
  - intros [k H]. exists (k, v). split; [done|]. by apply elem_of_map_to_list.
Qed.

Lemma foldr_min_le (x : Z) (l : list Z) :
  foldr Z.min x l ≤ x ∧ ∀ y, y ∈ l → foldr Z.min x l ≤ y.
Proof.
  induction l as [|z l [IH1 IH2]]; simpl.
  - split; [lia | intros y Hy; inversion Hy].
  - split; [lia|]. intros y Hy. apply elem_of_cons in Hy as [->|Hy]; [lia|].
    specialize (IH2 y Hy). lia.
Qed.

Lemma py_min_le (l : list Z) (m y : Z) :
  py_min l = Ok m → y ∈ l → m ≤ y.
Proof.
  destruct l as [|x l]; simpl; [done|]. intros [= <-] Hy.
  destruct (foldr_min_le x l) as [H1 H2].
  apply elem_of_cons in Hy as [->|Hy]; auto.
Qed.

Lemma py_min_Ok (l : list Z) (x : Z) : x ∈ l → ∃ m, py_min l = Ok m.
Proof. destruct l; [inversion 1 | simpl; eauto]. Qed.

(** What an accepted request of old.py satisfies, and the object it
    builds. *)
Lemma old_init_Ok (nn t f : Z) (l : gmap Z Z) (m : Z) (s : Old.Nback) :
  Old.init nn t f l m = Ok s →
  1 ≤ nn ∧ 0 ≤ t ∧ 0 ≤ f ∧ 0 ≤ m ∧
  (∀ k c, l !! k = Some c → 0 ≤ k ∧ 0 ≤ c) ∧
  s = {| Old.n := nn; Old.max_repeat := m; Old.items := [];
         Old.targets := t; Old.fillers := f; Old.lures := l;
         Old.types_ints := <[nn := t]> (<[Old.FILLER := f]> l);
         Old.seqlength := f + t + py_sum (py_values l);
         Old.wordlist := reverse (py_range f);
         Old.backtrack_count := 0 |}.
Proof.
  unfold Old.init. intros H.
  destruct (nn <? 1) eqn:E1; [done|].
  destruct ((t <? 0) || (f <? 0) || py_any _ (py_values l)) eqn:E2; [done|].
  destruct (py_min (py_keys l ++ [nn])) as [mn|] eqn:E3; [simpl in H|done].
  destruct (f <? mn) eqn:E4; [done|].
  destruct (py_any _ (py_keys l)) eqn:E5; [done|].
  destruct (m <? 0) eqn:E6; [done|].
  match type of H with bind ?c _ = _ => destruct c eqn:E7 end; [simpl in H|done].
  destruct (py_max _) as [mx|] eqn:E8; [simpl in H|done].
  destruct (_ <? mx) eqn:E9; [done|].
  injection H as <-.
  apply orb_false_iff in E2 as [E2 Hvals].
  rewrite py_any_false in E5. rewrite py_any_false in Hvals. zbool.
  repeat split; try lia.
  - assert (Hk : k ∈ py_keys l).
    { apply elem_of_py_keys, elem_of_dom. eauto. }
    apply E5 in Hk. zbool. lia.
  - assert (Hc : c ∈ py_values l) by (apply elem_of_py_values; eauto).
    apply Hvals in Hc. zbool. lia.
Qed.

(** In old.py the rule for [max_repeat == 1] rejects exactly the requests
    with [n == 1] or a positive count of 1-lures: a request that passes every
    other check (it is accepted with [max_repeat = 0]) is rejected with
    [max_repeat = 1] if and only if one of the two holds. *)
Lemma old_max_repeat_1_rule (nn t f : Z) (l : gmap Z Z) (s : Old.Nback) :
  Old.init nn t f l 0 = Ok s →
  (is_ValueError (Old.init nn t f l 1) ↔
   nn = 1 ∨ ∃ c, l !! 1 = Some c ∧ 0 < c) ∧
  (¬ is_ValueError (Old.init nn t f l 1) →
   ∃ s', Old.init nn t f l 1 = Ok s').
Proof.
  unfold Old.init. intros H.
  destruct (nn <? 1) eqn:E1; [done|].
  destruct ((t <? 0) || (f <? 0) || py_any _ (py_values l)) eqn:E2; [done|].
  destruct (py_min (py_keys l ++ [nn])) as [mn|] eqn:E3; [simpl in *|done].
  destruct (f <? mn) eqn:E4; [done|].
  destruct (py_any _ (py_keys l)) eqn:E5; [done|].
  destruct (py_max _) as [mx|] eqn:E8; [simpl in *|done].
  destruct (_ <? mx) eqn:E9; [done|].
  destruct (nn =? 1) eqn:E10; simpl.
  { zbool. split; [tauto | intros []; done]. }
  destruct (l !! 1) as [c|] eqn:E11; simpl.
  - destruct (0 <? c) eqn:E12; simpl; zbool.
    + split; [|intros []; done]. split; [|done]. intros _. right. eauto.
    + split; [|eauto]. split; [done|]. intros [?|(c' & [= <-] & ?)]; lia.
  - zbool. split; [|eauto]. split; [done|].
    intros [?|(c' & ? & ?)]; [lia | done].
Qed.

(** nback.py rejects every request with a lure distance that is zero or
    negative. *)
Lemma new_init_rejects_nonpositive_distance
    (level t f : Z) (l : gmap Z Z) (m d : Z) :
  d ∈ dom l → d ≤ 0 → is_ValueError (New.init level t f (Some l) m).
Proof.
  intros Hd Hd0. unfold New.init.
  destruct (level <? 1); [done|].
  destruct ((t <? 0) || (f <? 0)); simpl; [done|].
  destruct (elem_of_dom l d) as [[v Hv] _]; [done|].
  destruct (py_min_Ok (py_values l) v) as [mv ->].
  { apply elem_of_py_values. eauto. }
  simpl. destruct (mv <? 0); [done|].
  destruct (py_min_Ok (py_keys l ++ [level]) level) as [m1 ->].
  { apply elem_of_app. right. by left. }
  simpl. destruct (f <? m1); [done|].
  destruct (py_min_Ok (py_keys l) d) as [m2 Hm2].
  { by apply elem_of_py_keys. }
  rewrite Hm2. simpl.
  assert (m2 ≤ d) by (eapply py_min_le; [done | by apply elem_of_py_keys]).
  destruct (m2 <=? 0) eqn:E; [done|]. zbool. lia.
Qed.

(** old.py rejects every request with a negative lure distance. *)
Lemma old_init_rejects_negative_distance
    (nn t f : Z) (l : gmap Z Z) (m d : Z) :
  d ∈ dom l → d < 0 → is_ValueError (Old.init nn t f l m).
Proof.
  intros Hd Hd0. unfold Old.init.
  destruct (nn <? 1); [done|].
  destruct ((t <? 0) || (f <? 0) || py_any _ (py_values l)); [done|].
  destruct (py_min_Ok (py_keys l ++ [nn]) nn) as [m1 ->].
  { apply elem_of_app. right. by left. }
  simpl. destruct (f <? m1); [done|].
  rewrite (py_any_true _ (py_keys l) d); [done| |].
  - by apply elem_of_py_keys.
  - by apply Z.ltb_lt.
Qed.

(** C9 (old.py, line 56): the check is [i < 0], so a lure distance of
    exactly 0 passes validation.  The request [n=2, targets=1, fillers=2,
    lures={0: 1}] is accepted; its key 0 collides with [FILLER], so the lure
    count is overwritten by the filler count in [types_ints] while
    [seqlength] still counts it. *)
Theorem C9_old_init_accepts_distance_zero :
  ∃ s, Old.init 2 1 2 {[0 := 1]} 0 = Ok s ∧
       Old.types_ints s !! 0 = Some 2 ∧ Old.seqlength s = 4 ∧
       is_ValueError (New.init 2 1 2 (Some {[0 := 1]}) 0).
Proof. eexists. vm_compute. repeat split; reflexivity. Qed.

(** C4 (nback.py, line 54): the check is [lures.get(1, 1) > 0], whose
    default is 1, so with [max_repeat = 1] a request that has no entry for
    1-lures at all is rejected with the message of the 1-lure rule; old.py
    accepts the same request. *)
Theorem C4_new_init_rejects_absent_1_lures :
  ({[3 := 1]} : gmap Z Z) !! 1 = None ∧
  New.init 2 1 2 (Some {[3 := 1]}) 1
    = Raise (ValueError "max_repeat cannot be 1 with 1-lures") ∧
  (∃ s, New.init 2 1 2 (Some {[3 := 1]}) 0 = Ok s) ∧
  (∃ s, Old.init 2 1 2 {[3 := 1]} 1 = Ok s).
Proof. vm_compute. repeat split; eexists; reflexivity. Qed.

(** C6, as stated, fails: with old.py's default [lures = {1: 0}] and
    [n = 1] the lure distance 1 equals the n-level and the request is
    accepted. *)
Lemma C6_counterexample :
  1 ∈ dom ({[1 := 0]} : gmap Z Z) ∧
  ¬ is_ValueError (Old.init 1 1 1 {[1 := 0]} 0).
Proof. split; [set_solver | vm_compute; tauto]. Qed.

(** C6, amended: a lure entry at distance [n] whose count is 0 (as in the
    default [{1: 0}] with [n = 1]) does not make old.py's validation fail:
    the request is accepted whenever the other rules hold. *)
Theorem C6_zero_count_at_n_accepted (nn t f m : Z) :
  1 ≤ nn → 0 ≤ t → nn ≤ f → 0 ≤ m → ¬ (m = 1 ∧ nn = 1) →
  ∃ s, Old.init nn t f {[nn := 0]} m = Ok s ∧
       Old.lures s !! Old.n s = Some 0.
Proof.
  intros Hn Ht Hf Hm Hr. unfold Old.init.
  unfold py_values, py_keys. rewrite map_to_list_singleton. simpl.
  destruct (nn <? 1) eqn:E1; [zbool; lia|].
  destruct (t <? 0) eqn:E2; [zbool; lia|].
  destruct (f <? 0) eqn:E3; [zbool; lia|]. simpl.
  destruct (f <? nn `min` nn) eqn:E4; [zbool; lia|].
  destruct (nn <? 0) eqn:E5; [zbool; lia|]. simpl.
  destruct (m <? 0) eqn:E6; [zbool; lia|].
  assert (Hrule :
    (if m =? 1 then
       if nn =? 1
       then Raise (ValueError "n-level and max_repeat cannot both be set to 1")
       else match ({[nn := 0]} : gmap Z Z) !! 1 with
            | Some c =>
                if 0 <? c
                then Raise (ValueError "max_repeat cannot be set to 1 when there are level-1 lures")
                else Ok ()
            | None => Ok ()
            end
     else Ok ()) = Ok ()).
  { destruct (m =? 1) eqn:E7; [|done].
    destruct (nn =? 1) eqn:E8; [zbool; lia|]. zbool.
    by rewrite lookup_singleton_ne. }
  rewrite Hrule. simpl.
  destruct (f + t + (0 + 0) <? nn + 0) eqn:E9; [zbool; lia|].
  eexists. split; [done|]. simpl. by rewrite lookup_singleton_eq.
Qed.

Lemma C6_zero_count_at_n_accepted_witness :
  ∃ s, Old.init 1 3 2 {[1 := 0]} 0 = Ok s ∧ Old.lures s !! Old.n s = Some 0.
Proof. apply (C6_zero_count_at_n_accepted 1 3 2 0); lia. Defined.

End Validation.

(** * The search of old.py *)

Module OldFacts.
Import Old OldSpec Validation.

(** ** The built-ins *)

Lemma bind_Ok {A B : Type} (m : res A) (k : A → res B) (b : B) :
  bind m k = Ok b → ∃ a, m = Ok a ∧ k a = Ok b.
Proof. destruct m; simpl; [eauto | done]. Qed.

Lemma py_pop_snoc {A : Type} (l : list A) (x : A) :
  py_pop (l ++ [x]) = Ok (l, x).
Proof. unfold py_pop. by rewrite last_snoc, removelast_last. Qed.

Lemma py_pop_Ok {A : Type} (l r : list A) (x : A) :
  py_pop l = Ok (r, x) → l = r ++ [x].
Proof.
  destruct l as [|y l _] using rev_ind; [done|].
  rewrite py_pop_snoc. by intros [= <- <-].
Qed.

Lemma py_pop_Raise {A : Type} (l : list A) (e : exn) :
  py_pop l = Raise e → l = [] ∧ e = IndexError.
Proof.
  destruct l as [|y l _] using rev_ind; [by intros [= <-]|].
  by rewrite py_pop_snoc.
Qed.

Lemma py_index_Ok {A : Type} (l : list A) (i : Z) (x : A) :
  py_index l i = Ok x →
  ∃ j : nat, l !! j = Some x ∧
    Z.of_nat j = (if i <? 0 then Z.of_nat (length l) + i else i).
Proof.
  unfold py_index. intros H.
  destruct (_ || _) eqn:E; [done|].
  destruct (l !! _) as [y|] eqn:El; [|done]. injection H as ->.
  eexists. split; [exact El|]. zbool. lia.
Qed.

Lemma py_index_elem_of {A : Type} (l : list A) (i : Z) (x : A) :
  py_index l i = Ok x → x ∈ l.
Proof.
  intros (j & Hj & _)%py_index_Ok. by eapply list_elem_of_lookup_2.
Qed.

(** [l[-k]] for a positive [k]: the element [k] places before the end. *)
Lemma py_index_back {A : Type} (l : list A) (k : Z) (x : A) :
  0 < k → py_index l (- k) = Ok x →
  k ≤ Z.of_nat (length l) ∧
  l !! Z.to_nat (Z.of_nat (length l) - k) = Some x.
Proof.
  intros Hk (j & Hj & Hi)%py_index_Ok.
  destruct (- k <? 0) eqn:E; zbool; [|lia].
  split; [lia|]. by replace (Z.to_nat _) with j by lia.
Qed.

Lemma py_index_back_Ok {A : Type} (l : list A) (k : Z) :
  0 < k → k ≤ Z.of_nat (length l) → ∃ x, py_index l (- k) = Ok x.
Proof.
  intros Hk Hl. unfold py_index.
  destruct (- k <? 0) eqn:E; zbool; [|lia].
  destruct (_ || _) eqn:E'.
  { apply orb_true_iff in E' as [?|?]; zbool; lia. }
  destruct (l !! _) as [x|] eqn:El; [eauto|].
  apply lookup_ge_None in El. lia.
Qed.

Lemma py_remove_Ok (x : Z) (l l' : list Z) :
  py_remove x l = Ok l' →
  x ∈ l ∧ length l = S (length l') ∧ ∀ y, y ∈ l' → y ∈ l.
Proof.
  revert l'. induction l as [|y l IH]; intros l'; simpl; [done|].
  destruct (y =? x) eqn:E; zbool.
  - intros [= <-]. subst. split; [by left|]. split; [done|].
    intros z Hz. by right.
  - intros (r & Hr & [= <-])%bind_Ok. destruct (IH _ Hr) as (H1 & H2 & H3).
    split; [by right|]. split; [simpl; lia|].
    intros z [->|Hz]%elem_of_cons; [by left | right; auto].
Qed.

Lemma py_remove_Raise (x : Z) (l : list Z) (e : exn) :
  py_remove x l = Raise e → ∃ msg, e = ValueError msg.
Proof.
  induction l as [|y l IH]; simpl; [intros [= <-]; eauto|].
  destruct (y =? x); [done|].
  destruct (py_remove x l); simpl; [done|]. intros [= <-]. by apply IH.
Qed.

Lemma py_remove_elem_of (x : Z) (l : list Z) :
  x ∈ l → ∃ l', py_remove x l = Ok l'.
Proof.
  induction l as [|y l IH]; [inversion 1|]. simpl.
  destruct (y =? x) eqn:E; [eauto|]. zbool.
  intros [->|Hx]%elem_of_cons; [done|].
  destruct (IH Hx) as [l' ->]. simpl. eauto.
Qed.

Lemma random_choice_Ok {A : Type} (r : nat) (l : list A) (x : A) :
  random_choice r l = Ok x → x ∈ l.
Proof.
  unfold random_choice. destruct (l !! _) eqn:E; [|done].
  intros [= <-]. by eapply list_elem_of_lookup_2.
Qed.

Lemma random_choice_nonempty {A : Type} (r : nat) (l : list A) :
  l ≠ [] → ∃ x, random_choice r l = Ok x.
Proof.
  intros Hl. unfold random_choice.
  destruct (l !! _) eqn:E; [eauto|].
  apply lookup_ge_None in E.
  assert (length l ≠ 0)%nat by (destruct l; simpl; [done | lia]).
  pose proof (Nat.mod_upper_bound r (length l)). lia.
Qed.

(** ** Sums of counts *)

Lemma py_sum_app (l1 l2 : list Z) : py_sum (l1 ++ l2) = py_sum l1 + py_sum l2.
Proof. unfold py_sum. induction l1; simpl; lia. Qed.

Lemma py_sum_Permutation (l1 l2 : list Z) :
  l1 ≡ₚ l2 → py_sum l1 = py_sum l2.
Proof. unfold py_sum. induction 1; simpl; lia. Qed.

Lemma py_sum_values_insert_None (m : gmap Z Z) (k v : Z) :
  m !! k = None →
  py_sum (py_values (<[k := v]> m)) = v + py_sum (py_values m).
Proof.
  intros H. unfold py_values.
  rewrite (py_sum_Permutation _ ((k, v) :: map_to_list m).*2); [done|].
  by rewrite map_to_list_insert.
Qed.

Lemma py_sum_values_insert (m : gmap Z Z) (k v : Z) :
  py_sum (py_values (<[k := v]> m))
  = py_sum (py_values m) - default 0 (m !! k) + v.
Proof.
  destruct (m !! k) as [c|] eqn:E; simpl.
  - rewrite <- (insert_delete_eq m k v).
    rewrite <- (insert_delete_id m k c) at 2 by done.
    rewrite !py_sum_values_insert_None by apply lookup_delete_eq. lia.
  - rewrite py_sum_values_insert_None by done. lia.
Qed.

Lemma py_sum_nonneg (l : list Z) : (∀ x, x ∈ l → 0 ≤ x) → 0 ≤ py_sum l.
Proof.
  unfold py_sum. induction l as [|y l IH]; simpl; [lia|]. intros H.
  assert (0 ≤ y) by (apply H; by left).
  assert (0 ≤ foldr Z.add 0 l) by (apply IH; intros; apply H; by right). lia.
Qed.

Lemma py_sum_zero (l : list Z) :
  (∀ x, x ∈ l → 0 ≤ x) → py_sum l = 0 → ∀ x, x ∈ l → x = 0.
Proof.
  unfold py_sum. induction l as [|y l IH]; simpl; [inversion 3|].
  intros H Hs x Hx.
  assert (0 ≤ y) by (apply H; by left).
  assert (0 ≤ py_sum l) by (apply py_sum_nonneg; intros; apply H; by right).
  unfold py_sum in *.
  apply elem_of_cons in Hx as [->|Hx]; [lia|].
  apply IH; [intros; apply H; by right | lia | done].
Qed.

(** ** Loops *)

Lemma for_each_inv {A S : Type} (P : S → Prop) (body : A → S → res S)
    (l : list A) (s s' : S) :
  (∀ x a a', x ∈ l → P a → body x a = Ok a' → P a') →
  P s → for_each body l s = Ok s' → P s'.
Proof.
  revert s. induction l as [|x l IH]; intros s Hbody Hs; simpl.
  - by intros [= <-].
  - intros (a & Ha & Hrest)%bind_Ok. apply (IH a); [|by eapply Hbody; [left|..]|done].
    intros y b b' Hy. apply Hbody. by right.
Qed.

(** ** What [get_types] returns *)

Lemma admissible_ext (a b : Nback) (t : Z) :
  n a = n b → max_repeat a = max_repeat b → lures a = lures b →
  items a = items b →
  admissible a t → admissible b t.
Proof.
  unfold admissible, repeat_limit_reached, items_different, len_items.
  by intros -> -> -> ->.
Qed.

Lemma wf_items_ext (a b : Nback) (l : list item) :
  n a = n b → max_repeat a = max_repeat b → lures a = lures b →
  wf_items a l → wf_items b l.
Proof.
  intros Hn Hm Hl. induction 1 as [|p it Hp IH (H1 & H2 & H3)]; constructor; auto.
  split; [done|]. split; [|done].
  eapply Forall_impl; [exact H2|]. intros t. by apply admissible_ext.
Qed.

Lemma wf_items_snoc_inv (self : Nback) (p : list item) (it : item) :
  wf_items self (p ++ [it]) → wf_items self p ∧ placed_ok self p it.
Proof.
  inversion 1 as [E|p' it' Hp Hit E].
  - by destruct p.
  - by apply app_inj_tail in E as [-> ->].
Qed.

Lemma get_types_lure_admissible (self : Nback) (k : Z) (acc acc' : list Z) :
  0 ≤ k → k ∈ dom (lures self) → Forall (admissible self) acc →
  get_types_lure self k acc = Ok acc' → Forall (admissible self) acc'.
Proof.
  intros Hk Hdom Hacc. unfold get_types_lure.
  intros (c & Hc & H)%bind_Ok.
  destruct (_ && _) eqn:E; [|by injection H as <-]. zbool.
  apply bind_Ok in H as (d1 & Hd1 & H).
  apply bind_Ok in H as (limit & Hlim & H).
  apply bind_Ok in H as (d2 & Hd2 & H).
  destruct (d1 && d2) eqn:Ed; [|by injection H as <-]. zbool. subst d1 d2.
  injection H as <-. apply Forall_app. split; [done|].
  apply Forall_singleton.
  destruct (decide (k = FILLER)) as [->|Hne]; [by left|]. right.
  unfold FILLER in Hne. split; [lia|]. split; [done|]. split.
  - exists limit. split; [done|]. by intros ->.
  - right. split; [done|].
    intros Hn. destruct (n self <=? len_items self) eqn:En; [done|].
    zbool. lia.
Qed.

Lemma get_types_admissible (self : Nback) (av : list Z) :
  params_ok self → get_types self = Ok av → Forall (admissible self) av.
Proof.
  intros (Hn & _ & _ & Hkeys). unfold get_types.
  intros (cf & Hcf & H)%bind_Ok.
  apply bind_Ok in H as (ct & Hct & H).
  apply bind_Ok in H as (acc & Hacc & H).
  eapply (for_each_inv (Forall (admissible self))); [| |exact H].
  - intros k a a' Hk%elem_of_py_keys. apply get_types_lure_admissible; auto.
  - assert (Hf : Forall (admissible self)
                   (if 0 <? cf then [] ++ [FILLER] else [])).
    { destruct (0 <? cf); [|done]. apply Forall_singleton. by left. }
    destruct (_ && _) eqn:E; [|by injection Hacc as <-]. zbool.
    apply bind_Ok in Hacc as (limit & Hlim & Hacc).
    apply bind_Ok in Hacc as (ta & Hta & Hacc).
    destruct ta; [|by injection Hacc as <-]. injection Hacc as <-.
    apply Forall_app. split; [done|]. apply Forall_singleton. right.
    split; [lia|]. split; [done|]. split; [|by left].
    exists limit. split; [done|]. by intros ->.
Qed.

Lemma get_types_length (self : Nback) (av : list Z) :
  get_types self = Ok av → (length av ≤ 2 + size (lures self))%nat.
Proof.
  unfold get_types.
  intros (cf & Hcf & H)%bind_Ok.
  apply bind_Ok in H as (ct & Hct & H).
  apply bind_Ok in H as (acc & Hacc & H).
  assert (Hacc' : (length acc ≤ 2)%nat).
  { destruct (_ && _).
    - apply bind_Ok in Hacc as (limit & Hlim & Hacc).
      apply bind_Ok in Hacc as (ta & Hta & Hacc).
      destruct ta, (0 <? cf); injection Hacc as <-; simpl; lia.
    - destruct (0 <? cf); injection Hacc as <-; simpl; lia. }
  assert (Hkeys : length (py_keys (lures self)) = size (lures self)).
  { unfold py_keys. by rewrite length_fmap, length_map_to_list. }
  rewrite <- Hkeys. clear Hkeys Hacc.
  revert acc Hacc' H. generalize (py_keys (lures self)).
  intros ks. generalize 2%nat.
  induction ks as [|k ks IH]; intros b acc Hb; simpl.
  - intros [= <-]. lia.
  - intros (a & Ha & H)%bind_Ok.
    assert (length a ≤ S b)%nat.
    { unfold get_types_lure in Ha. apply bind_Ok in Ha as (c & _ & Ha).
      destruct (_ && _); [|injection Ha as <-; lia].
      apply bind_Ok in Ha as (d1 & _ & Ha).
      apply bind_Ok in Ha as (lim & _ & Ha).
      apply bind_Ok in Ha as (d2 & _ & Ha).
      destruct (d1 && d2); injection Ha as <-; [|lia].
      rewrite length_app. simpl. lia. }
    specialize (IH (S b) a). ospecialize* IH; try done. lia.
Qed.

(** ** What [choose_random_itemtype] returns *)

Lemma choose_random_itemtype_Ok (r : nat) (self : Nback) (av : list Z) (ty : Z) :
  choose_random_itemtype r self av = Ok ty →
  ty ∈ av ∧ ∃ c, types_ints self !! ty = Some c ∧ 0 < c.
Proof.
  unfold choose_random_itemtype.
  intros (expanded & Hexp & Hty%random_choice_Ok)%bind_Ok.
  revert ty Hty.
  eapply (for_each_inv
            (λ e, ∀ ty, ty ∈ e →
                  ty ∈ av ∧ ∃ c, types_ints self !! ty = Some c ∧ 0 < c));
    [| |exact Hexp]; simpl.
  - intros x a a' Hx Ha (c & Hc & [= <-])%bind_Ok ty.
    intros [Hty|Hty]%elem_of_app; [by apply Ha|].
    apply elem_of_replicate in Hty as [-> Hc0].
    split; [done|]. exists c. unfold py_getitem in Hc.
    destruct (types_ints self !! x) eqn:E; [|done]. injection Hc as ->.
    split; [done|]. lia.
  - intros ty Hty. inversion Hty.
Qed.

(** ** What [backtrack] does *)

Lemma backtrack_Ok (self self' : Nback) (cur : item) :
  backtrack self = Ok (self', cur) →
  ∃ p it c ta,
    items self = p ++ [it] ∧
    types_ints self !! type it = Some c ∧
    py_remove (type it) (types_available it) = Ok ta ∧
    cur = {| type := type it; stim := stim it; types_available := ta |} ∧
    self' =
      {| n := n self; max_repeat := max_repeat self; items := p;
         targets := targets self; fillers := fillers self;
         lures := lures self;
         types_ints := <[type it := c + 1]> (types_ints self);
         seqlength := seqlength self;
         wordlist := if type it =? FILLER then wordlist self ++ [stim it]
                     else wordlist self;
         backtrack_count := backtrack_count self + 1 |}.
Proof.
  unfold backtrack. intros ([p it] & Hpop & H)%bind_Ok.
  apply py_pop_Ok in Hpop. simpl in Hpop.
  apply bind_Ok in H as (c & Hc & H). simpl in Hc.
  apply bind_Ok in H as (ta & Hta & H).
  injection H as <- <-. exists p, it, c, ta.
  unfold py_getitem in Hc. destruct (types_ints self !! type it) eqn:E; [|done].
  injection Hc as ->. repeat split; try done.
  by destruct (type it =? FILLER).
Qed.

Lemma backtrack_Raise (self : Nback) (e : exn) :
  backtrack self = Raise e →
  (e = IndexError ∧ items self = []) ∨ (e ≠ IndexError ∧ items self ≠ []).
Proof.
  unfold backtrack.
  destruct (py_pop _) as [[p it]|e'] eqn:Hpop; simpl.
  - apply py_pop_Ok in Hpop. simpl in Hpop. intros H. right.
    split; [|rewrite Hpop; by destruct p].
    unfold py_getitem in H. simpl in H.
    destruct (types_ints self !! type it); simpl in H; [|by injection H as <-].
    destruct (py_remove _ _) eqn:Hr; simpl in H; [done|].
    injection H as <-. by apply py_remove_Raise in Hr as [msg ->].
  - apply py_pop_Raise in Hpop as [? ->]. intros [= <-]. by left.
Qed.

(** ** The invariant is kept *)

Lemma filler_stims_snoc (p : list item) (it : item) :
  filler_stims (p ++ [it])
  = filler_stims p ++ (if type it =? FILLER then [stim it] else []).
Proof.
  unfold filler_stims. rewrite filter_app, fmap_app. f_equal.
  rewrite filter_cons, filter_nil. unfold is_filler.
  destruct (type it =? FILLER) eqn:E; zbool; by case_decide.
Qed.

Lemma same_request_refl (a : Nback) : same_request a a.
Proof. by repeat split. Qed.

Lemma same_request_trans (a b c : Nback) :
  same_request a b → same_request b c → same_request a c.
Proof.
  intros (?&?&?&?&?&?) (?&?&?&?&?&?). repeat split; congruence.
Qed.

Lemma backtrack_Inv (T : Z) (self self' : Nback) (cur : item) :
  Inv T self → backtrack self = Ok (self', cur) →
  Inv T self' ∧ Forall (admissible self') (types_available cur) ∧
  length (items self) = S (length (items self')) ∧ same_request self self'.
Proof.
  intros [Hpar Hwf Hw Hc Ht] (p & it & c & ta & Hp & Hty & Hta & -> & ->)%backtrack_Ok.
  rewrite Hp in Hwf. apply wf_items_snoc_inv in Hwf as [Hwf (H1 & H2 & H3)].
  split; [split|split; [|split]]; simpl.
  - exact Hpar.
  - eapply wf_items_ext; [| | |exact Hwf]; done.
  - rewrite Hp, filler_stims_snoc in Hw.
    destruct (type it =? FILLER); [|by rewrite app_nil_r in Hw].
    by rewrite reverse_app, app_assoc in Hw.
  - intros k v. destruct (decide (k = type it)) as [->|Hne].
    + rewrite lookup_insert_eq. intros [= <-]. apply Hc in Hty. lia.
    + rewrite lookup_insert_ne by done. apply Hc.
  - unfold remaining, len_items in *. simpl.
    rewrite py_sum_values_insert, Hty. simpl.
    rewrite Hp, length_app in Ht. simpl in Ht. lia.
  - apply py_remove_Ok in Hta as (_ & _ & Hsub).
    rewrite Forall_forall in H2. apply Forall_forall. intros t Ht'.
    eapply admissible_ext; [..|apply H2, Hsub, Ht']; done.
  - rewrite Hp, length_app. simpl. lia.
  - by repeat split.
Qed.

Lemma backtrack_loop_Inv (T : Z) (k : nat) (self self' : Nback)
    (av av' : list Z) :
  Inv T self → Forall (admissible self) av →
  backtrack_loop k self av = Some (Ok (self', av')) →
  Inv T self' ∧ Forall (admissible self') av' ∧ av' ≠ [] ∧
  (length (items self') ≤ length (items self))%nat ∧ same_request self self'.
Proof.
  revert self av. induction k as [|k IH]; intros self av Hinv Hav; simpl.
  - destruct av; [|intros [= <- <-]; split_and!; auto using same_request_refl].
    destruct (backtrack self) as [[s1 cur]|e]; [done|]. by destruct e.
  - destruct av; [|intros [= <- <-]; split_and!; auto using same_request_refl].
    destruct (backtrack self) as [[s1 cur]|e] eqn:Hb; [|by destruct e].
    destruct (backtrack_Inv T _ _ _ Hinv Hb) as (Hinv1 & Hav1 & Hlen & Hsame).
    intros H. destruct (IH _ _ Hinv1 Hav1 H) as (?&?&?&?&?).
    split_and!; try done; [lia | by eapply same_request_trans].
Qed.

Lemma backtrack_loop_fuel (k : nat) (self : Nback) (av : list Z) :
  (length (items self) ≤ k)%nat → backtrack_loop k self av ≠ None.
Proof.
  revert self av. induction k as [|k IH]; intros self av Hk; simpl.
  - destruct av; [|done].
    destruct (backtrack self) as [[s1 cur]|e] eqn:Hb; [|by destruct e].
    apply backtrack_Ok in Hb as (p & it & _ & _ & Hp & _).
    rewrite Hp, length_app in Hk. simpl in Hk. lia.
  - destruct av; [|done].
    destruct (backtrack self) as [[s1 cur]|e] eqn:Hb; [|by destruct e].
    apply IH.
    apply backtrack_Ok in Hb as (p & it & c & ta & Hp & _ & _ & _ & ->).
    rewrite Hp, length_app in Hk. simpl in *. lia.
Qed.

Lemma add_item_terminates (r : nat) (self : Nback) : add_item r self ≠ None.
Proof.
  unfold add_item. destruct (get_types self); [|done].
  pose proof (backtrack_loop_fuel (length (items self)) self a (Nat.le_refl _)).
  destruct (backtrack_loop _ _ _) as [[[s1 av1]|e]|]; done.
Qed.

Lemma add_item_Inv (T : Z) (r : nat) (self self' : Nback) :
  Inv T self → add_item r self = Some (Ok self') →
  Inv T self' ∧ same_request self self' ∧
  (1 ≤ length (items self') ≤ S (length (items self)))%nat.
Proof.
  intros Hinv. unfold add_item.
  destruct (get_types self) as [av|] eqn:Hg; [|done].
  destruct (backtrack_loop _ _ _) as [[[s1 av1]|e]|] eqn:Hloop; [|done..].
  intros [= H].
  eapply backtrack_loop_Inv in Hloop as (Hinv1 & Hav1 & Hne & Hlen & Hsame);
    [|done|by apply get_types_admissible; [apply Hinv|]].
  apply bind_Ok in H as (ty & Hty & H).
  apply bind_Ok in H as (c & Hc & H).
  apply bind_Ok in H as ([s3 x] & Hstim & H). injection H as <-.
  apply choose_random_itemtype_Ok in Hty as (Hin & c' & Hc' & Hpos).
  unfold py_getitem in Hc. rewrite Hc' in Hc. injection Hc as <-.
  destruct Hinv1 as [Hpar Hwf Hw Hcnt Ht].
  unfold get_stim in Hstim. simpl in Hstim.
  assert (Hcnt' : ∀ k v, <[ty := c' - 1]> (types_ints s1) !! k = Some v → 0 ≤ v).
  { intros k v. destruct (decide (k = ty)) as [->|Hne'].
    - rewrite lookup_insert_eq. intros [= <-]. lia.
    - rewrite lookup_insert_ne by done. apply Hcnt. }
  assert (Htot : py_sum (py_values (<[ty := c' - 1]> (types_ints s1)))
                 + Z.of_nat (length (items s1 ++ [Item ty x av1])) = T).
  { rewrite py_sum_values_insert, Hc', length_app. simpl.
    unfold remaining, len_items in Ht. lia. }
  destruct (ty =? FILLER) eqn:Ef; zbool.
  - apply bind_Ok in Hstim as ([w y] & Hpop & [= <- <-]).
    apply py_pop_Ok in Hpop. simpl.
    split; [split|]; simpl; try done.
    + constructor; [by eapply wf_items_ext; [| | |exact Hwf]|].
      split; [done|]. split; [|done]. simpl.
      eapply Forall_impl; [exact Hav1|]. intros t. by apply admissible_ext.
    + rewrite filler_stims_snoc. simpl. rewrite Ef. rewrite Z.eqb_refl.
      rewrite reverse_app. simpl. rewrite Hpop in Hw.
      by rewrite <- app_assoc in Hw.
    + split; [done|]. rewrite length_app. simpl. lia.
  - apply bind_Ok in Hstim as (src & Hsrc & [= <- <-]). simpl.
    split; [split|]; simpl; try done.
    + constructor; [by eapply wf_items_ext; [| | |exact Hwf]|].
      split; [done|]. split; [|by eauto]. simpl.
      eapply Forall_impl; [exact Hav1|]. intros t. by apply admissible_ext.
    + rewrite filler_stims_snoc. simpl.
      destruct (ty =? FILLER) eqn:Ef'; zbool; [done|]. by rewrite app_nil_r.
    + split; [done|]. rewrite length_app. simpl. lia.
Qed.

Lemma set_items_Inv (T : Z) (rs : list nat) (self self' : Nback) :
  Inv T self → len_items self ≤ seqlength self →
  set_items rs self = Some (Ok self') →
  Inv T self' ∧ same_request self self' ∧ len_items self' = seqlength self'.
Proof.
  revert self. induction rs as [|r rs IH]; intros self Hinv Hlen; simpl.
  - destruct (len_items self <? seqlength self) eqn:E; [done|]. zbool.
    intros [= <-]. split; [done|]. split; [apply same_request_refl | lia].
  - destruct (len_items self <? seqlength self) eqn:E; zbool.
    + destruct (add_item r self) as [[s1|e]|] eqn:Ha; [|done..].
      destruct (add_item_Inv _ _ _ _ Hinv Ha) as (Hinv1 & Hsame & Hl).
      intros H. apply IH in H as (?&?&?); [| done |].
      * split; [done|]. split; [by eapply same_request_trans | done].
      * destruct Hsame as (_&_&_&_&_&<-). unfold len_items in *. lia.
    + intros [= <-]. split; [done|]. split; [apply same_request_refl | lia].
Qed.

(** ** The invariant holds at the start *)

Lemma py_range_length (k : Z) : 0 ≤ k → Z.of_nat (length (py_range k)) = k.
Proof. intros. unfold py_range. rewrite length_fmap, length_seq. lia. Qed.

Lemma py_range_NoDup (k : Z) : NoDup (py_range k).
Proof.
  unfold py_range. apply NoDup_fmap; [apply _ | apply NoDup_seq].
Qed.

Lemma init_Inv (nn t f : Z) (l : gmap Z Z) (m : Z) (s0 : Nback) :
  init nn t f l m = Ok s0 →
  Inv (remaining s0) s0 ∧ items s0 = [] ∧
  n s0 = nn ∧ max_repeat s0 = m ∧ lures s0 = l ∧
  seqlength s0 = f + t + py_sum (py_values l) ∧
  0 ≤ default 0 (l !! FILLER) ∧ 0 ≤ default 0 (l !! nn) ∧
  remaining s0 + default 0 (l !! FILLER) + default 0 (l !! nn) = seqlength s0.
Proof.
  intros (Hn & Ht & Hf & Hm & Hl & ->)%old_init_Ok.
  assert (H0 : 0 ≤ default 0 (l !! FILLER)).
  { destruct (l !! FILLER) eqn:E; simpl; [by apply Hl in E as [_ ?] | done]. }
  assert (Hnn : 0 ≤ default 0 (l !! nn)).
  { destruct (l !! nn) eqn:E; simpl; [by apply Hl in E as [_ ?] | done]. }
  split_and!; try done.
  - split; simpl.
    + split_and!; try done. intros k [c Hc]%elem_of_dom. by apply Hl in Hc as [? _].
    + constructor.
    + by rewrite app_nil_r.
    + intros k c. destruct (decide (k = nn)) as [->|Hne].
      { rewrite lookup_insert_eq. by intros [= <-]. }
      rewrite lookup_insert_ne by done.
      destruct (decide (k = FILLER)) as [->|Hne'].
      { rewrite lookup_insert_eq. by intros [= <-]. }
      rewrite lookup_insert_ne by done. intros Hc. by apply Hl in Hc as [_ ?].
    + unfold len_items. simpl. lia.
  - unfold remaining. simpl. rewrite !py_sum_values_insert.
    rewrite lookup_insert_ne by (unfold FILLER; lia). lia.
Qed.

(** ** Positions of a well-formed sequence *)

Lemma item_at_Some (l : list item) (i : Z) (it : item) :
  item_at l i = Some it ↔ 0 ≤ i ∧ l !! Z.to_nat i = Some it.
Proof.
  unfold item_at. destruct (i <? 0) eqn:E; zbool; [|tauto].
  split; [done | lia].
Qed.

Lemma wf_items_lookup (self : Nback) (l : list item) (i : nat) (it : item) :
  wf_items self l → l !! i = Some it →
  wf_items self (take i l) ∧ placed_ok self (take i l) it.
Proof.
  induction 1 as [|p x Hp IH Hx]; [done|]. intros Hi.
  destruct (decide (i < length p)%nat) as [Hlt|Hge].
  - rewrite lookup_app_l in Hi by done.
    rewrite take_app_le by lia. auto.
  - assert (i = length p) as ->.
    { apply lookup_lt_Some in Hi. rewrite length_app in Hi. simpl in Hi. lia. }
    rewrite list_lookup_middle in Hi by done. injection Hi as <-.
    rewrite take_app_length. auto.
Qed.

Lemma wf_items_stims (self : Nback) (l : list item) (it : item) :
  wf_items self l → it ∈ l → stim it ∈ filler_stims l.
Proof.
  intros Hwf. revert it.
  induction Hwf as [|p x Hp IH (H1 & H2 & H3)]; intros it; [inversion 1|].
  rewrite filler_stims_snoc.
  intros [Hit|Hit%list_elem_of_singleton]%elem_of_app.
  - apply elem_of_app. left. auto.
  - subst x. apply elem_of_app.
    destruct (type it =? FILLER) eqn:E; zbool; [right; by left|left].
    destruct (H3 E) as (src & Hsrc%py_index_elem_of & <-). auto.
Qed.

Lemma py_index_take_back (l : list item) (i : nat) (k : Z) (x : item) :
  (i ≤ length l)%nat → 0 < k → py_index (take i l) (- k) = Ok x →
  k ≤ Z.of_nat i ∧ item_at l (Z.of_nat i - k) = Some x.
Proof.
  intros Hi Hk (Hle & Hx)%py_index_back; [|done].
  rewrite length_take_le in Hle, Hx by done.
  split; [done|]. apply item_at_Some. split; [lia|].
  apply lookup_take_Some in Hx. tauto.
Qed.

Lemma items_different_true (self : Nback) (i j : Z) :
  items_different self i j = Ok true →
  ∃ a b, py_index (items self) i = Ok a ∧ py_index (items self) j = Ok b ∧
         stim a ≠ stim b.
Proof.
  unfold items_different. intros (a & Ha & H)%bind_Ok.
  apply bind_Ok in H as (b & Hb & [= H]). zbool. eauto.
Qed.

Lemma Inv_NoDup_fillers (T : Z) (self : Nback) :
  Inv T self → NoDup (filler_stims (items self)).
Proof.
  intros [_ _ Hw _ _].
  pose proof (py_range_NoDup (fillers self)) as Hnd.
  rewrite <- (reverse_Permutation (py_range _)), <- Hw in Hnd.
  apply NoDup_app in Hnd as (_ & _ & Hnd).
  by rewrite reverse_Permutation in Hnd.
Qed.

(** The stimulus of a filler occurs nowhere before it. *)
Lemma filler_fresh (self : Nback) (l : list item) (i j : nat) (it a : item) :
  wf_items self l → NoDup (filler_stims l) →
  l !! i = Some it → type it = FILLER → l !! j = Some a → (j < i)%nat →
  stim a ≠ stim it.
Proof.
  intros Hwf Hnd Hi Hf Hj Hlt Heq.
  destruct (wf_items_lookup _ _ _ _ Hwf Hi) as [Hwf' _].
  assert (Ha : stim a ∈ filler_stims (take i l)).
  { eapply wf_items_stims; [done|]. eapply list_elem_of_lookup_2.
    apply lookup_take_Some. eauto. }
  rewrite <- (take_drop_middle l i it Hi) in Hnd.
  unfold filler_stims in Hnd, Ha.
  rewrite filter_app, fmap_app, filter_cons in Hnd.
  unfold is_filler at 2 in Hnd. rewrite decide_True in Hnd by done.
  rewrite fmap_cons in Hnd. apply NoDup_app in Hnd as (_ & Hnd & _).
  apply (Hnd (stim a)); [done|]. rewrite Heq. by left.
Qed.

(** Once [max_repeat > 0] items are placed, every further item differs from
    the item before it: a filler is new, and for another type
    [repeat_limit_reached] has returned [True] (with [max_repeat >= 2] it
    cannot have returned at all). *)
Lemma no_repeat_at (T : Z) (self : Nback) (i : Z) (it : item) :
  Inv T self → 0 < max_repeat self → max_repeat self ≤ i →
  item_at (items self) i = Some it →
  ∃ b, item_at (items self) (i - 1) = Some b ∧ stim b ≠ stim it.
Proof.
  intros Hinv Hm Hi [Hi0 Hit]%item_at_Some.
  pose proof (Inv_NoDup_fillers _ _ Hinv) as Hnd.
  destruct Hinv as [Hpar Hwf _ _ _].
  assert (Hlt : (Z.to_nat i < length (items self))%nat)
    by by eapply lookup_lt_Some.
  destruct (lookup_lt_is_Some_2 (items self) (Z.to_nat (i - 1))) as [b Hb];
    [lia|].
  exists b. split; [apply item_at_Some; split; [lia | done]|].
  destruct (decide (type it = FILLER)) as [Hf|Hf].
  { eapply filler_fresh; eauto. lia. }
  destruct (wf_items_lookup _ _ _ _ Hwf Hit) as [_ (Hin & Hadm & Hsrc)].
  destruct (Hsrc Hf) as (src & Hsrc' & <-).
  rewrite Forall_forall in Hadm. destruct (Hadm _ Hin) as [?|Ha]; [done|].
  destruct Ha as (Hpos & Hlen & (limit & Hlim & Hdiff) & _).
  unfold repeat_limit_reached, len_items in Hlim. simpl in Hlim.
  rewrite length_take_le in Hlim by lia.
  destruct (max_repeat self =? 0) eqn:E0; zbool; [lia|].
  destruct (_ <? max_repeat self) eqn:E1; zbool; [lia|].
  destruct (max_repeat self =? 1) eqn:E2; [|done]. injection Hlim as <-.
  destruct (items_different_true _ _ _ (Hdiff eq_refl)) as (a & b' & Ha & Hb' & Hne).
  simpl in Ha, Hb'. rewrite Hsrc' in Hb'. injection Hb' as <-.
  apply (py_index_take_back _ _ 1) in Ha as [_ Ha]; [|lia..].
  apply item_at_Some in Ha as [_ Ha].
  replace (Z.to_nat (Z.of_nat (Z.to_nat i) - 1)) with (Z.to_nat (i - 1)) in Ha
    by lia.
  congruence.
Qed.

(** ** Finished sequences *)

Lemma generate_Ok (nn t f : Z) (l : gmap Z Z) (m : Z) (rs : list nat)
    (s : Nback) :
  generate nn t f l m rs = Some (Ok s) →
  ∃ T, Inv T s ∧ n s = nn ∧ max_repeat s = m ∧ lures s = l ∧
       fillers s = f ∧
       seqlength s = f + t + py_sum (py_values l) ∧
       len_items s = seqlength s ∧
       0 ≤ default 0 (l !! FILLER) ∧ 0 ≤ default 0 (l !! nn) ∧
       T + default 0 (l !! FILLER) + default 0 (l !! nn) = seqlength s.
Proof.
  unfold generate. destruct (init nn t f l m) as [s0|] eqn:Hinit; [|done].
  intros Hrun.
  destruct (init_Inv _ _ _ _ _ _ Hinit)
    as (Hinv & Hitems & Hn & Hm & Hl & Hseq & H0 & H1 & Hrem).
  eapply set_items_Inv in Hrun as (Hinv' & Hsame & Hlen); [|exact Hinv|].
  - destruct Hsame as (?&?&?&?&?&?). exists (remaining s0).
    apply old_init_Ok in Hinit as (_ & _ & _ & _ & _ & Hs0).
    assert (fillers s0 = f) by by rewrite Hs0.
    split_and!; try done; congruence.
  - unfold len_items. rewrite Hitems, Hseq. simpl.
    apply old_init_Ok in Hinit as (_ & ? & ? & _ & Hl' & _).
    assert (0 ≤ py_sum (py_values l)); [|lia].
    apply py_sum_nonneg. intros x [k Hk]%elem_of_py_values.
    by apply Hl' in Hk as [_ ?].
Qed.

(** C1, as stated, fails: the request [n=1, targets=1, fillers=1,
    lures={2: 1}] passes validation, and no draws of the random source make
    [set_items] return: the only 2-lure position would repeat the 1-back
    stimulus, so the search empties the sequence and exits. *)
Lemma C1_counterexample :
  (∃ s0, init 1 1 1 {[2 := 1]} 0 = Ok s0) ∧
  (∀ rs s, generate 1 1 1 {[2 := 1]} 0 rs ≠ Some (Ok s)) ∧
  generate 1 1 1 {[2 := 1]} 0 [0; 0; 0]%nat = Some (Raise SystemExit).
Proof.
  split; [eexists; vm_compute; reflexivity|]. split; [|vm_compute; reflexivity].
  intros rs s.
  destruct rs as [|r1 [|r2 [|r3 rs]]]; vm_compute; done.
Qed.

(** C1, amended: for every accepted request, whenever [set_items] returns,
    the sequence has exactly the derived length
    [fillers + targets + sum of the lure counts] and every remaining count
    of [types_ints] is zero. *)
Theorem C1_returned_sequence_complete
    (nn t f : Z) (l : gmap Z Z) (m : Z) (rs : list nat) (s : Nback) :
  generate nn t f l m rs = Some (Ok s) →
  Z.of_nat (length (items s)) = f + t + py_sum (py_values l) ∧
  seqlength s = f + t + py_sum (py_values l) ∧
  ∀ k c, types_ints s !! k = Some c → c = 0.
Proof.
  intros (T & Hinv & _ & _ & _ & _ & Hseq & Hlen & H0 & H1 & HT)%generate_Ok.
  unfold len_items in Hlen. split; [lia|]. split; [done|].
  destruct Hinv as [_ _ _ Hcnt Htot]. unfold remaining, len_items in Htot.
  assert (Hnn : ∀ x, x ∈ py_values (types_ints s) → 0 ≤ x).
  { intros x [k Hk]%elem_of_py_values. eauto. }
  pose proof (py_sum_nonneg _ Hnn).
  intros k c Hc. apply (py_sum_zero (py_values (types_ints s))); [done|lia|].
  apply elem_of_py_values. eauto.
Qed.

(** C7: in a finished sequence a target repeats the stimulus [n] positions
    before it. *)
Theorem C7_target_repeats_n_back
    (nn t f : Z) (l : gmap Z Z) (m : Z) (rs : list nat) (s : Nback)
    (i : Z) (it : item) :
  generate nn t f l m rs = Some (Ok s) →
  item_at (items s) i = Some it → is_target s it →
  n s = nn ∧ stimulus (items s) (i - nn) = Some (stim it).
Proof.
  intros (T & Hinv & Hn & _)%generate_Ok [Hi Hit]%item_at_Some Htar.
  split; [done|]. unfold is_target in Htar.
  destruct Hinv as [(Hn1 & _) Hwf _ _ _].
  destruct (wf_items_lookup _ _ _ _ Hwf Hit) as [_ (_ & _ & Hsrc)].
  destruct Hsrc as (src & Hsrc & <-); [unfold FILLER; lia|].
  rewrite Htar, Hn in Hsrc.
  apply py_index_take_back in Hsrc as [_ Hsrc]; [|apply lookup_lt_Some in Hit|];
    [|lia..].
  unfold stimulus. rewrite Z2Nat.id in Hsrc by done. by rewrite Hsrc.
Qed.

(** C2: in a finished sequence a lure of distance [d] repeats the stimulus
    [d] positions before it, and when there is a position [n] before it, its
    stimulus differs from the one found there. *)
Theorem C2_lure_repeats_d_back_not_n_back
    (nn t f : Z) (l : gmap Z Z) (m : Z) (rs : list nat) (s : Nback)
    (i d : Z) (it : item) :
  generate nn t f l m rs = Some (Ok s) →
  item_at (items s) i = Some it → is_lure s d it →
  n s = nn ∧
  stimulus (items s) (i - d) = Some (stim it) ∧
  (0 ≤ i - nn →
   ∃ x, stimulus (items s) (i - nn) = Some x ∧ x ≠ stim it).
Proof.
  intros (T & Hinv & Hn & _)%generate_Ok [Hi Hit]%item_at_Some.
  intros (Hty & Hdom & Hdn & Hd0). split; [done|].
  destruct Hinv as [(Hn1 & _ & _ & Hkeys) Hwf _ _ _].
  pose proof (lookup_lt_Some _ _ _ Hit) as Hlt.
  destruct (wf_items_lookup _ _ _ _ Hwf Hit) as [_ (Hin & Hadm & Hsrc)].
  destruct Hsrc as (src & Hsrc & <-); [congruence|].
  rewrite Hty in Hsrc, Hin.
  assert (0 < d) by (specialize (Hkeys d Hdom); unfold FILLER in Hd0; lia).
  pose proof Hsrc as Hsrc'.
  apply py_index_take_back in Hsrc' as [_ Hsrc']; [|lia..].
  rewrite Z2Nat.id in Hsrc' by done.
  split; [unfold stimulus; by rewrite Hsrc'|].
  intros Hback. rewrite Forall_forall in Hadm.
  destruct (Hadm _ Hin) as [?|(_ & _ & _ & [?|[_ Hdiff]])]; [done..|].
  unfold len_items in Hdiff. simpl in Hdiff.
  rewrite length_take_le in Hdiff by lia.
  destruct (items_different_true _ _ _ (Hdiff ltac:(lia)))
    as (a & b & Ha & Hb & Hne).
  simpl in Ha, Hb. rewrite Hsrc in Hb. injection Hb as <-.
  apply py_index_take_back in Ha as [_ Ha]; [|lia..].
  rewrite Z2Nat.id, Hn in Ha by done.
  exists (stim a). split; [unfold stimulus; by rewrite Ha | done].
Qed.

(** C8: in a finished sequence the stimuli of the fillers are pairwise
    distinct, whatever backtracking the search went through: the stimuli of
    the fillers in the sequence followed by the tokens still in [wordlist]
    are the tokens [range(fillers)], each once. *)
Theorem C8_filler_stimuli_distinct
    (nn t f : Z) (l : gmap Z Z) (m : Z) (rs : list nat) (s : Nback) :
  generate nn t f l m rs = Some (Ok s) →
  (∀ i j a b,
     item_at (items s) i = Some a → item_at (items s) j = Some b →
     is_filler a → is_filler b → i ≠ j → stim a ≠ stim b) ∧
  wordlist s ++ reverse (filler_stims (items s)) = reverse (py_range f).
Proof.
  intros (T & Hinv & _ & _ & _ & Hf & _)%generate_Ok.
  pose proof (Inv_NoDup_fillers _ _ Hinv) as Hnd.
  destruct Hinv as [_ Hwf Hw _ _]. split; [|by rewrite Hw, Hf].
  intros i j a b [Hi Ha]%item_at_Some [Hj Hb]%item_at_Some Hfa Hfb Hij.
  destruct (decide (i < j)).
  - eapply (filler_fresh s (items s) (Z.to_nat j) (Z.to_nat i)); eauto. lia.
  - apply not_eq_sym.
    eapply (filler_fresh s (items s) (Z.to_nat i) (Z.to_nat j)); eauto. lia.
Qed.

Lemma C1_returned_sequence_complete_witness :
  ∃ s, generate 1 1 2 {[2 := 1]} 0 [0; 0; 0; 0; 0]%nat = Some (Ok s) ∧
       Z.of_nat (length (items s)) = 2 + 1 + py_sum (py_values {[2 := 1]}) ∧
       seqlength s = 2 + 1 + py_sum (py_values {[2 := 1]}) ∧
       ∀ k c, types_ints s !! k = Some c → c = 0.
Proof.
  eexists. split; [vm_compute; reflexivity|].
  apply (C1_returned_sequence_complete 1 1 2 {[2 := 1]} 0 [0; 0; 0; 0; 0]%nat).
  vm_compute. reflexivity.
Defined.

Lemma C7_target_repeats_n_back_witness :
  ∃ s it, generate 2 1 2 {[1 := 1]} 0 [0; 2; 1; 0]%nat = Some (Ok s) ∧
          item_at (items s) 3 = Some it ∧ type it = 2 ∧
          n s = 2 ∧ stimulus (items s) (3 - 2) = Some (stim it).
Proof.
  eexists _, _. split; [vm_compute; reflexivity|].
  split; [vm_compute; reflexivity|]. split; [reflexivity|].
  eapply (C7_target_repeats_n_back 2 1 2 {[1 := 1]} 0 [0; 2; 1; 0]%nat).
  - vm_compute. reflexivity.
  - vm_compute. reflexivity.
  - reflexivity.
Defined.

Lemma C2_lure_repeats_d_back_not_n_back_witness :
  ∃ s it, generate 2 1 2 {[1 := 1]} 0 [0; 2; 1; 0]%nat = Some (Ok s) ∧
          item_at (items s) 2 = Some it ∧ is_lure s 1 it ∧
          n s = 2 ∧
          stimulus (items s) (2 - 1) = Some (stim it) ∧
          (0 ≤ 2 - 2 →
           ∃ x, stimulus (items s) (2 - 2) = Some x ∧ x ≠ stim it).
Proof.
  eexists _, _. split; [vm_compute; reflexivity|].
  split; [vm_compute; reflexivity|].
  assert (Hl : is_lure
    {| n := 2; max_repeat := 0; items := []; targets := 1; fillers := 2;
       lures := {[1 := 1]}; types_ints := ∅; seqlength := 4; wordlist := [];
       backtrack_count := 0 |} 1
    {| type := 1; stim := 1; types_available := [2; 1] |}).
  { split; [done|]. split; [|done]. apply elem_of_dom. by exists 1. }
  split; [exact Hl|].
  eapply (C2_lure_repeats_d_back_not_n_back
            2 1 2 {[1 := 1]} 0 [0; 2; 1; 0]%nat).
  - vm_compute. reflexivity.
  - vm_compute. reflexivity.
  - exact Hl.
Defined.

Lemma C8_filler_stimuli_distinct_witness :
  ∃ s, generate 1 1 2 {[2 := 1]} 0 [0; 0; 0; 0; 0]%nat = Some (Ok s) ∧
       backtrack_count s = 1 ∧
       (∀ i j a b,
          item_at (items s) i = Some a → item_at (items s) j = Some b →
          is_filler a → is_filler b → i ≠ j → stim a ≠ stim b) ∧
       wordlist s ++ reverse (filler_stims (items s)) = reverse (py_range 2).
Proof.
  eexists. split; [vm_compute; reflexivity|]. split; [reflexivity|].
  apply (C8_filler_stimuli_distinct 1 1 2 {[2 := 1]} 0 [0; 0; 0; 0; 0]%nat).
  vm_compute. reflexivity.
Defined.

(** With [max_repeat = 0] the limit is never reached, whatever the items. *)
Lemma repeat_limit_reached_0 (self : Nback) :
  max_repeat self = 0 → repeat_limit_reached self = Ok false.
Proof. unfold repeat_limit_reached. by intros ->. Qed.

(** With [max_repeat >= 2] the check raises [TypeError] as soon as
    [max_repeat] items are placed. *)
Lemma repeat_limit_reached_TypeError (self : Nback) :
  2 ≤ max_repeat self → max_repeat self ≤ len_items self →
  repeat_limit_reached self = Raise TypeError.
Proof.
  intros H2 Hlen. unfold repeat_limit_reached.
  destruct (max_repeat self =? 0) eqn:E0; zbool; [lia|].
  destruct (len_items self <? max_repeat self) eqn:E1; zbool; [lia|].
  destruct (max_repeat self =? 1) eqn:E2; zbool; [lia|]. done.
Qed.

(** C3: when [max_repeat > 0], a finished sequence has no [max_repeat + 1]
    consecutive positions with one and the same stimulus; when
    [max_repeat = 0], [repeat_limit_reached] answers [False] in every state,
    so no type is ever withheld for repeating a stimulus. *)
Theorem C3_repeat_limit
    (nn t f : Z) (l : gmap Z Z) (m : Z) (rs : list nat) (s : Nback) :
  generate nn t f l m rs = Some (Ok s) →
  (0 < m →
   ∀ i x, ¬ ∀ k, 0 ≤ k ≤ m → stimulus (items s) (i + k) = Some x) ∧
  (m = 0 →
   ∀ self, max_repeat self = max_repeat s →
           repeat_limit_reached self = Ok false).
Proof.
  intros (T & Hinv & _ & Hm & _)%generate_Ok. split.
  - intros Hpos i x Hrun.
    assert (Hi : 0 ≤ i).
    { specialize (Hrun 0 ltac:(lia)). unfold stimulus, item_at in Hrun.
      destruct (i + 0 <? 0) eqn:E; [done|]. zbool. lia. }
    pose proof (Hrun m ltac:(lia)) as Hlast.
    pose proof (Hrun (m - 1) ltac:(lia)) as Hprev.
    unfold stimulus in Hlast, Hprev.
    destruct (item_at (items s) (i + m)) as [it|] eqn:Hit; [|done].
    injection Hlast as <-.
    destruct (no_repeat_at T s (i + m) it) as (b & Hb & Hne);
      [done | lia | lia | done |].
    replace (i + m - 1) with (i + (m - 1)) in Hb by lia.
    rewrite Hb in Hprev. simpl in Hprev. congruence.
  - intros -> self Hself. apply repeat_limit_reached_0. congruence.
Qed.

Lemma C3_repeat_limit_witness :
  (∃ s, generate 2 2 2 {[1 := 0]} 1 [0; 0; 0; 0]%nat = Some (Ok s) ∧
        ∀ i x, ¬ ∀ k, 0 ≤ k ≤ 1 → stimulus (items s) (i + k) = Some x) ∧
  (∃ s, generate 1 1 1 {[1 := 0]} 2 [0; 0]%nat = Some (Ok s) ∧
        ∀ i x, ¬ ∀ k, 0 ≤ k ≤ 2 → stimulus (items s) (i + k) = Some x).
Proof.
  split.
  - eexists. split; [vm_compute; reflexivity|].
    apply (C3_repeat_limit 2 2 2 {[1 := 0]} 1 [0; 0; 0; 0]%nat);
      [vm_compute; reflexivity | lia].
  - eexists. split; [vm_compute; reflexivity|].
    apply (C3_repeat_limit 1 1 1 {[1 := 0]} 2 [0; 0]%nat);
      [vm_compute; reflexivity | lia].
Defined.

(** With [max_repeat = 0] one stimulus may fill a whole run, and with
    [max_repeat = 2] the same request stops with [TypeError] at the third
    item. *)
Example max_repeat_0_allows_runs :
  ∃ s, generate 1 2 1 {[1 := 0]} 0 [0; 0; 0]%nat = Some (Ok s) ∧
       stim <$> items s = [0; 0; 0] ∧
       generate 1 2 1 {[1 := 0]} 2 [0; 0; 0]%nat = Some (Raise TypeError).
Proof. eexists. vm_compute. repeat split; reflexivity. Qed.

(** ** Termination of the search *)

Open Scope nat_scope.

Lemma search_measure_pos (b L : nat) (l : list item) :
  0 < b → 1 ≤ search_measure b L l.
Proof.
  intros Hb. revert L. induction l as [|it l IH]; intros L; simpl.
  - assert (b ^ L ≠ 0) by (apply Nat.pow_nonzero; lia). lia.
  - specialize (IH (L - 1)). lia.
Qed.

(** A new item on top of a sequence that is not full. *)
Lemma search_measure_push (b L : nat) (l : list item) (it : item) :
  length l < L → length (types_available it) + 2 ≤ b →
  search_measure b L (l ++ [it]) < search_measure b L l.
Proof.
  intros Hl Hit. revert L Hl.
  induction l as [|x l IH]; intros L Hl; simpl in *.
  - destruct L as [|L]; [lia|]. simpl. rewrite Nat.sub_0_r.
    assert (b ^ L ≠ 0) by (apply Nat.pow_nonzero; lia). nia.
  - specialize (IH (L - 1) ltac:(lia)). lia.
Qed.

(** An item replaced by one with fewer untried types, the items above it
    being dropped. *)
Lemma search_measure_replace (b L : nat) (p q : list item) (it it' : item) :
  0 < b →
  length (types_available it') < length (types_available it) →
  search_measure b L (p ++ [it']) < search_measure b L (p ++ it :: q).
Proof.
  intros Hb Hlt. revert L. induction p as [|x p IH]; intros L; simpl.
  - pose proof (search_measure_pos b (L - 1) q Hb). nia.
  - specialize (IH (L - 1)). lia.
Qed.

Lemma backtrack_loop_shape (k : nat) (self s1 : Nback) (av av1 : list Z) :
  backtrack_loop k self av = Some (Ok (s1, av1)) →
  lures s1 = lures self ∧ seqlength s1 = seqlength self ∧
  ((s1 = self ∧ av1 = av) ∨
   (∃ it q, items self = items s1 ++ it :: q ∧
            length av1 < length (types_available it))).
Proof.
  revert self av. induction k as [|k IH]; intros self av; simpl.
  - destruct av; [|intros [= <- <-]; auto].
    destruct (backtrack self) as [[s' cur]|e]; [done|]. by destruct e.
  - destruct av; [|intros [= <- <-]; auto].
    destruct (backtrack self) as [[s' cur]|e] eqn:Hb; [|by destruct e].
    apply backtrack_Ok in Hb as (p & it & c & ta & Hp & _ & Hta & -> & ->).
    apply py_remove_Ok in Hta as (_ & Hlen & _).
    intros (Hl & Hs & Hshape)%IH. simpl in *.
    split; [done|]. split; [done|]. right.
    destruct Hshape as [[-> ->]|(it2 & q2 & Hq & Hlt)]; simpl in *.
    + exists it, []. split; [done | lia].
    + exists it2, (q2 ++ [it]). split; [|done].
      by rewrite Hp, Hq, <- app_assoc.
Qed.

Lemma add_item_draws_needed (r : nat) (self self' : Nback) :
  (len_items self < seqlength self)%Z →
  add_item r self = Some (Ok self') →
  draws_needed self' < draws_needed self.
Proof.
  intros Hlen. unfold add_item.
  destruct (get_types self) as [av|] eqn:Hg; [|done].
  destruct (backtrack_loop _ _ _) as [[[s1 av1]|e]|] eqn:Hloop; [|done..].
  intros [= H].
  apply bind_Ok in H as (ty & Hty & H).
  apply bind_Ok in H as (c & Hc & H).
  apply bind_Ok in H as ([s3 x] & Hstim & H). injection H as <-.
  assert (Hs3 : items s3 = items s1 ∧ lures s3 = lures s1
                ∧ seqlength s3 = seqlength s1).
  { unfold get_stim in Hstim. destruct (ty =? FILLER)%Z.
    - by apply bind_Ok in Hstim as ([w y] & _ & [= <- _]).
    - by apply bind_Ok in Hstim as (src & _ & [= <- _]). }
  destruct Hs3 as (Hi3 & Hl3 & Hq3).
  apply backtrack_loop_shape in Hloop as (Hl1 & Hq1 & Hshape).
  unfold draws_needed. simpl. rewrite Hi3, Hl3, Hq3, Hl1, Hq1.
  destruct Hshape as [[-> ->]|(it & q & Hq & Hlt)].
  - apply search_measure_push.
    + unfold len_items in Hlen. lia.
    + apply get_types_length in Hg. simpl. lia.
  - rewrite Hq. by apply search_measure_replace; [lia|].
Qed.

(** [set_items] ends once it is given as many draws as [draws_needed]
    says. *)
Lemma set_items_terminates (rs : list nat) (self : Nback) :
  draws_needed self ≤ length rs → set_items rs self ≠ None.
Proof.
  revert self. induction rs as [|r rs IH]; intros self Hrs; simpl.
  - pose proof (search_measure_pos (4 + size (lures self))
                  (Z.to_nat (seqlength self)) (items self) ltac:(lia)).
    unfold draws_needed in Hrs. cbn [length] in Hrs.
    destruct (len_items self <? seqlength self)%Z; [lia | done].
  - destruct (len_items self <? seqlength self)%Z eqn:E; [|done]. zbool.
    pose proof (add_item_terminates r self).
    destruct (add_item r self) as [[s1|e]|] eqn:Ha; [|done..].
    apply IH. apply add_item_draws_needed in Ha; [|done].
    cbn [length] in Hrs. lia.
Qed.

Close Scope nat_scope.

(** ** The exceptions of the search *)

Lemma for_each_Raise {A S : Type} (body : A → S → res S)
    (l : list A) (s : S) (e : exn) :
  for_each body l s = Raise e → ∃ x a, x ∈ l ∧ body x a = Raise e.
Proof.
  revert s. induction l as [|x l IH]; intros s; simpl; [done|].
  destruct (body x s) as [a|e'] eqn:Hb; simpl.
  - intros (y & b & Hy & Hb')%IH. exists y, b. split; [by right | done].
  - intros [= <-]. exists x, s. split; [by left | done].
Qed.

Lemma py_index_in_range {A : Type} (l : list A) (i : Z) :
  - Z.of_nat (length l) ≤ i < Z.of_nat (length l) → ∃ x, py_index l i = Ok x.
Proof.
  intros Hi. unfold py_index.
  destruct (_ || _) eqn:E.
  { apply orb_true_iff in E as [E|E]; destruct (i <? 0) eqn:E'; zbool; lia. }
  destruct (l !! _) as [x|] eqn:El; [eauto|].
  apply lookup_ge_None in El. destruct (i <? 0) eqn:E'; zbool; lia.
Qed.

Lemma items_different_in_range (self : Nback) (i j : Z) :
  - len_items self ≤ i < len_items self →
  - len_items self ≤ j < len_items self →
  ∃ b, items_different self i j = Ok b.
Proof.
  unfold len_items, items_different.
  intros [a ->]%py_index_in_range [b ->]%py_index_in_range. simpl. eauto.
Qed.

Lemma repeat_limit_reached_cases (self : Nback) :
  0 ≤ max_repeat self →
  repeat_limit_reached self = Ok false ∨
  (repeat_limit_reached self = Ok true ∧ 1 ≤ len_items self) ∨
  (repeat_limit_reached self = Raise TypeError ∧ 2 ≤ max_repeat self).
Proof.
  intros Hm. unfold repeat_limit_reached.
  destruct (max_repeat self =? 0) eqn:E0; [by left|].
  destruct (len_items self <? max_repeat self) eqn:E1; [by left|].
  destruct (max_repeat self =? 1) eqn:E2; zbool; right; [left|right];
    (split; [done | lia]).
Qed.

Lemma py_getitem_Some (d : gmap Z Z) (k : Z) :
  is_Some (d !! k) → ∃ v, py_getitem d k = Ok v ∧ d !! k = Some v.
Proof. intros [v Hv]. exists v. unfold py_getitem. by rewrite Hv. Qed.

Lemma get_types_lure_Raise (self : Nback) (k : Z) (acc : list Z) (e : exn) :
  params_ok self → Sound self → k ∈ dom (lures self) →
  get_types_lure self k acc = Raise e →
  e = TypeError ∧ 2 ≤ max_repeat self.
Proof.
  intros (Hn & Hm & _ & Hkeys) [Hdom _ _] Hk. unfold get_types_lure.
  destruct (py_getitem_Some (types_ints self) k) as (c & -> & _); [auto|].
  simpl. destruct (_ && _) eqn:E; [|done]. zbool.
  specialize (Hkeys k Hk).
  assert (Hd1 : ∃ d1,
    (if n self <=? len_items self
     then items_different self (- n self) (- k) else Ok true) = Ok d1).
  { destruct (n self <=? len_items self) eqn:En; [|eauto]. zbool.
    apply items_different_in_range; lia. }
  destruct Hd1 as [d1 ->]. simpl.
  destruct (repeat_limit_reached_cases self Hm) as [->|[[-> Hl]|[-> H2]]]; simpl.
  - by destruct (d1 && true).
  - destruct (items_different_in_range self (-1) (- k)) as [d2 ->]; [lia..|].
    simpl. by destruct (d1 && d2).
  - by intros [= <-].
Qed.

Lemma get_types_Raise (self : Nback) (e : exn) :
  params_ok self → Sound self → get_types self = Raise e →
  e = TypeError ∧ 2 ≤ max_repeat self.
Proof.
  intros Hpar Hs. pose proof Hpar as (Hn & Hm & _ & Hkeys).
  pose proof Hs as [Hdom _ _]. unfold get_types.
  destruct (py_getitem_Some (types_ints self) FILLER) as (cf & -> & _); [auto|].
  destruct (py_getitem_Some (types_ints self) (n self)) as (ct & -> & _); [auto|].
  simpl.
  match goal with
  | |- bind ?c _ = _ → _ => destruct c as [acc|e'] eqn:Hacc
  end; simpl.
  - intros (k & a & Hk%elem_of_py_keys & Hr)%for_each_Raise.
    by eapply get_types_lure_Raise.
  - intros [= <-]. destruct (_ && _) eqn:E; [|done]. zbool.
    destruct (repeat_limit_reached_cases self Hm) as [Hl|[[Hl Hlen]|[Hl H2]]];
      rewrite Hl in Hacc; simpl in Hacc.
    + done.
    + destruct (items_different_in_range self (-1) (- n self)) as [d Hd];
        [lia..|].
      rewrite Hd in Hacc. simpl in Hacc. by destruct d.
    + by injection Hacc as <-.
Qed.

Lemma get_types_lure_live (self : Nback) (k : Z) (acc acc' : list Z) :
  live self acc → get_types_lure self k acc = Ok acc' → live self acc'.
Proof.
  intros Hacc. unfold get_types_lure. intros (c & Hc & H)%bind_Ok.
  destruct (_ && _) eqn:E; [|by injection H as <-]. zbool.
  apply bind_Ok in H as (d1 & _ & H).
  apply bind_Ok in H as (limit & _ & H).
  apply bind_Ok in H as (d2 & _ & H).
  destruct (d1 && d2); injection H as <-; [|done].
  intros t [Ht|Ht%list_elem_of_singleton]%elem_of_app; [auto|]. subst t.
  exists c. unfold py_getitem in Hc.
  destruct (types_ints self !! k); [|done]. by injection Hc as ->.
Qed.

Lemma get_types_live (self : Nback) (av : list Z) :
  get_types self = Ok av → live self av.
Proof.
  unfold get_types. intros (cf & Hcf & H)%bind_Ok.
  apply bind_Ok in H as (ct & Hct & H).
  apply bind_Ok in H as (acc & Hacc & H).
  eapply (for_each_inv (live self)); [| |exact H].
  - intros k a a' _. apply get_types_lure_live.
  - assert (Hf : live self (if 0 <? cf then [] ++ [FILLER] else [])).
    { destruct (0 <? cf) eqn:E; [|by intros t Ht; inversion Ht]. zbool.
      intros t Ht%list_elem_of_singleton. subst t. exists cf.
      unfold py_getitem in Hcf.
      destruct (types_ints self !! FILLER); [|done]. by injection Hcf as ->. }
    destruct (_ && _) eqn:E; [|by injection Hacc as <-]. zbool.
    apply bind_Ok in Hacc as (limit & _ & Hacc).
    apply bind_Ok in Hacc as (ta & _ & Hacc).
    destruct ta; injection Hacc as <-; [|done].
    intros t [Ht|Ht%list_elem_of_singleton]%elem_of_app; [auto|]. subst t.
    exists ct. unfold py_getitem in Hct.
    destruct (types_ints self !! n self); [|done]. by injection Hct as ->.
Qed.

Lemma admissible_static (self : Nback) (t : Z) :
  admissible self t → t = FILLER ∨ t = n self ∨ t ∈ dom (lures self).
Proof. intros [?|(_ & _ & _ & [?|[? _]])]; auto. Qed.

Lemma occurrences_snoc (t : Z) (l : list item) (x : item) :
  occurrences t (l ++ [x])
  = occurrences t l + (if decide (type x = t) then 1 else 0).
Proof.
  unfold occurrences. rewrite filter_app, length_app, filter_cons, filter_nil.
  case_decide; simpl; lia.
Qed.

Lemma occurrences_cons_snoc (t : Z) (it : item) (q : list item) (x : item) :
  occurrences t (it :: q ++ [x])
  = occurrences t (it :: q) + (if decide (type x = t) then 1 else 0).
Proof. by rewrite app_comm_cons, occurrences_snoc. Qed.

Lemma occurrences_singleton (t : Z) (x : item) :
  occurrences t [x] = if decide (type x = t) then 1 else 0.
Proof. by rewrite <- (app_nil_l [x]), occurrences_snoc. Qed.

Lemma backtrack_total (T : Z) (self : Nback) :
  Inv T self → Sound self → items self ≠ [] →
  ∃ self' cur, backtrack self = Ok (self', cur).
Proof.
  intros [_ Hwf _ _ _] [Hdom _ _] Hne.
  destruct (items self) as [|it p _] eqn:Hitems using rev_ind; [done|].
  apply wf_items_snoc_inv in Hwf as [_ (Hin & Hadm & _)].
  unfold backtrack. simpl. rewrite Hitems, py_pop_snoc. simpl.
  rewrite Forall_forall in Hadm.
  destruct (py_getitem_Some (types_ints self) (type it)) as (c & -> & _).
  { apply Hdom. by apply (admissible_static (with_items p self)), Hadm. }
  simpl. destruct (py_remove_elem_of _ _ Hin) as [ta ->]. simpl. eauto.
Qed.

Lemma backtrack_Sound (T : Z) (self self' : Nback) (cur : item) :
  Inv T self → Sound self → backtrack self = Ok (self', cur) →
  Sound self' ∧ live self' (types_available cur).
Proof.
  intros Hinv [Hdom Hw Hav]
    (p & it & c & ta & Hp & Hty & Hta & -> & ->)%backtrack_Ok.
  apply py_remove_Ok in Hta as (_ & _ & Hsub).
  split; [split|]; simpl.
  - intros t Ht. destruct (decide (t = type it)) as [->|Hne].
    + rewrite lookup_insert_eq. eauto.
    + rewrite lookup_insert_ne by done. auto.
  - destruct (type it =? FILLER) eqn:E; zbool.
    + rewrite <- E, lookup_insert_eq. rewrite E, Hw in Hty.
      injection Hty as <-. rewrite length_app. simpl. f_equal. lia.
    + by rewrite lookup_insert_ne.
  - intros p' it' q' Hp' t Ht.
    destruct (Hav p' it' (q' ++ [it])) with (t := t) as (c0 & Hc0 & Hpos);
      [by rewrite Hp, Hp', <- app_assoc | done |].
    rewrite occurrences_cons_snoc in Hpos.
    destruct (decide (type it = t)) as [<-|Hne].
    + rewrite lookup_insert_eq. exists (c + 1). split; [done|].
      rewrite Hty in Hc0. injection Hc0 as <-. lia.
    + rewrite lookup_insert_ne by done. exists c0. split; [done | lia].
  - intros t Ht%Hsub. simpl.
    destruct (Hav p it []) with (t := t) as (c0 & Hc0 & Hpos); [done..|].
    rewrite occurrences_singleton in Hpos.
    destruct (decide (type it = t)) as [<-|Hne].
    + rewrite lookup_insert_eq. exists (c + 1). split; [done|].
      rewrite Hty in Hc0. injection Hc0 as <-. lia.
    + rewrite lookup_insert_ne by done. exists c0. split; [done | lia].
Qed.

Lemma backtrack_loop_Sound (T : Z) (k : nat) (self : Nback) (av : list Z) :
  Inv T self → Sound self → live self av →
  match backtrack_loop k self av with
  | Some (Ok (s1, av1)) => Sound s1 ∧ live s1 av1
  | Some (Raise e) => e = SystemExit
  | None => True
  end.
Proof.
  revert self av. induction k as [|k IH]; intros self av Hinv Hs Hlive; simpl.
  - destruct av; [|done].
    destruct (backtrack self) as [[s' cur]|e] eqn:Hb; [done|].
    destruct (backtrack_Raise _ _ Hb) as [[-> _]|[_ Hne]]; [done|].
    destruct (backtrack_total T self Hinv Hs Hne) as (?&?&?). congruence.
  - destruct av; [|done].
    destruct (backtrack self) as [[s' cur]|e] eqn:Hb.
    + destruct (backtrack_Inv T _ _ _ Hinv Hb) as (Hinv' & _).
      destruct (backtrack_Sound T _ _ _ Hinv Hs Hb) as (Hs' & Hlive').
      by apply IH.
    + destruct (backtrack_Raise _ _ Hb) as [[-> _]|[_ Hne]]; [done|].
      destruct (backtrack_total T self Hinv Hs Hne) as (?&?&?). congruence.
Qed.

Lemma choose_random_itemtype_total (r : nat) (self : Nback) (av : list Z) :
  live self av → av ≠ [] → ∃ ty, choose_random_itemtype r self av = Ok ty.
Proof.
  intros Hlive Hne. unfold choose_random_itemtype.
  assert (Hexp : ∀ acc, ∃ e,
    for_each
      (λ itemtype expanded,
         let! c := py_getitem (types_ints self) itemtype in
         Ok (expanded ++ replicate (Z.to_nat c) itemtype)) av acc = Ok e
    ∧ (length acc + (if av is [] then 0 else 1) ≤ length e)%nat).
  { clear Hne. induction av as [|t av IH]; intros acc; simpl.
    - exists acc. split; [done | lia].
    - destruct (Hlive t) as (c & Hc & Hpos); [by left|].
      unfold py_getitem at 1. rewrite Hc. simpl.
      destruct (IH (λ u Hu, Hlive u (list_elem_of_further _ _ _ Hu))
                   (acc ++ replicate (Z.to_nat c) t)) as (e & -> & Hlen).
      exists e. split; [done|].
      rewrite length_app, length_replicate in Hlen. destruct av; lia. }
  destruct (Hexp []) as (e & -> & Hlen). simpl.
  apply random_choice_nonempty. destruct av; [done|].
  destruct e; [simpl in Hlen; lia | done].
Qed.

Lemma snoc_eq_middle {A : Type} (l p q : list A) (x y : A) :
  l ++ [x] = p ++ y :: q →
  (q = [] ∧ l = p ∧ x = y) ∨ (∃ q', q = q' ++ [x] ∧ l = p ++ y :: q').
Proof.
  destruct q as [|z q _] using rev_ind.
  - intros [-> ->]%app_inj_tail. by left.
  - rewrite app_comm_cons, app_assoc. intros [-> ->]%app_inj_tail.
    right. by exists q.
Qed.

(** A call of [add_item] either places an item, or stops the program with
    [exit()], or, only when [max_repeat >= 2], raises [TypeError]. *)
Lemma add_item_outcome (T : Z) (r : nat) (self : Nback) :
  Inv T self → Sound self →
  match add_item r self with
  | Some (Ok self') => Sound self'
  | Some (Raise e) =>
      e = SystemExit ∨ (e = TypeError ∧ 2 ≤ max_repeat self)
  | None => True
  end.
Proof.
  intros Hinv Hs. unfold add_item.
  destruct (get_types self) as [av|e] eqn:Hg;
    [|right; eapply get_types_Raise; [apply Hinv | done..]].
  pose proof (get_types_live _ _ Hg) as Hlive.
  pose proof (get_types_admissible _ _ (inv_params _ _ Hinv) Hg) as Hadm.
  pose proof (backtrack_loop_Sound T (length (items self)) self av Hinv Hs Hlive)
    as Hloop.
  destruct (backtrack_loop _ _ _) as [[[s1 av1]|e]|] eqn:Hl; [|by left|done].
  destruct Hloop as [Hs1 Hlive1].
  destruct (backtrack_loop_Inv T _ _ _ _ _ Hinv Hadm Hl)
    as (Hinv1 & Hadm1 & Hne1 & _ & _).
  destruct (choose_random_itemtype_total r s1 av1 Hlive1 Hne1) as [ty Hty].
  rewrite Hty. simpl.
  apply choose_random_itemtype_Ok in Hty as (Hin & c & Hc & Hpos).
  unfold py_getitem. rewrite Hc. simpl.
  destruct Hs1 as [Hdom Hw Hav].
  assert (Hdom' : ∀ u, u = FILLER ∨ u = n s1 ∨ u ∈ dom (lures s1) →
                       is_Some (<[ty := c - 1]> (types_ints s1) !! u)).
  { intros u Hu. destruct (decide (u = ty)) as [->|Hne].
    - rewrite lookup_insert_eq. eauto.
    - rewrite lookup_insert_ne by done. auto. }
  assert (Havail' : ∀ x p it q,
    items s1 ++ [{| type := ty; stim := x; types_available := av1 |}]
      = p ++ it :: q →
    ∀ u, u ∈ types_available it →
    ∃ c0, <[ty := c - 1]> (types_ints s1) !! u = Some c0
          ∧ 0 < c0 + occurrences u (it :: q)).
  { intros x p it q [(-> & <- & <-)|(q' & -> & Hq)]%snoc_eq_middle u Hu.
    - simpl in Hu. destruct (Hlive1 u Hu) as (c0 & Hc0 & Hpos0).
      rewrite occurrences_singleton. simpl.
      destruct (decide (ty = u)) as [<-|Hne].
      + rewrite lookup_insert_eq. exists (c - 1). split; [done | lia].
      + rewrite lookup_insert_ne by done. exists c0. split; [done | lia].
    - destruct (Hav p it q' Hq u Hu) as (c0 & Hc0 & Hpos0).
      rewrite occurrences_cons_snoc. simpl.
      destruct (decide (ty = u)) as [<-|Hne].
      + rewrite lookup_insert_eq. exists (c - 1). split; [done|].
        rewrite Hc in Hc0. injection Hc0 as <-. lia.
      + rewrite lookup_insert_ne by done. exists c0. split; [done | lia]. }
  unfold get_stim. simpl.
  destruct (ty =? FILLER) eqn:Ef; zbool.
  - subst ty. rewrite Hw in Hc. injection Hc as <-.
    destruct (wordlist s1) as [|x w _] eqn:Hwl using rev_ind; [simpl in Hpos; lia|].
    rewrite py_pop_snoc. simpl. split; simpl; [done| |by apply Havail'].
    rewrite lookup_insert_eq, length_app. simpl. f_equal. lia.
  - rewrite Forall_forall in Hadm1.
    destruct (Hadm1 ty Hin) as [?|(Hty0 & Hlen & _)]; [done|].
    destruct (py_index_back_Ok (items s1) ty Hty0 Hlen) as [src ->]. simpl.
    split; simpl; [done| |by apply Havail'].
    by rewrite lookup_insert_ne.
Qed.

Lemma init_Sound (nn t f : Z) (l : gmap Z Z) (m : Z) (s0 : Nback) :
  init nn t f l m = Ok s0 → Sound s0.
Proof.
  intros (Hn & Ht & Hf & Hm & Hl & ->)%old_init_Ok. split; simpl.
  - intros u Hu. destruct (decide (u = nn)) as [->|Hne].
    { rewrite lookup_insert_eq. eauto. }
    rewrite lookup_insert_ne by done.
    destruct (decide (u = FILLER)) as [->|Hne'].
    { rewrite lookup_insert_eq. eauto. }
    rewrite lookup_insert_ne by done.
    destruct Hu as [?|[?|Hu]]; [done..|]. by apply elem_of_dom.
  - rewrite lookup_insert_ne by (unfold FILLER; lia).
    rewrite lookup_insert_eq, length_reverse. f_equal.
    by rewrite py_range_length.
  - intros p it q Hp. by destruct p.
Qed.

Lemma set_items_outcome (T : Z) (rs : list nat) (self : Nback) :
  Inv T self → Sound self →
  match set_items rs self with
  | Some (Raise e) => e = SystemExit ∨ (e = TypeError ∧ 2 ≤ max_repeat self)
  | _ => True
  end.
Proof.
  revert self. induction rs as [|r rs IH]; intros self Hinv Hs; simpl.
  - by destruct (len_items self <? seqlength self).
  - destruct (len_items self <? seqlength self); [|done].
    pose proof (add_item_outcome T r self Hinv Hs) as Hout.
    destruct (add_item r self) as [[s1|e]|] eqn:Ha; [|done..].
    destruct (add_item_Inv T _ _ _ Hinv Ha) as (Hinv1 & (_ & Hm & _) & _).
    rewrite Hm. by apply IH.
Qed.

(** ** How a request ends *)

(** C5, as stated, fails for old.py: for the accepted request [n=1,
    targets=1, fillers=1, lures={2: 1}] no completion exists, the search
    exhausts every candidate, and what reaches the caller is the [SystemExit]
    of [exit()], never an [UnsatisfiableException]. *)
Lemma C5_counterexample :
  (∀ rs s, generate 1 1 1 {[2 := 1]} 0 rs ≠ Some (Ok s)) ∧
  generate 1 1 1 {[2 := 1]} 0 [0; 0; 0]%nat = Some (Raise SystemExit) ∧
  (∀ rs, generate 1 1 1 {[2 := 1]} 0 rs
         ≠ Some (Raise UnsatisfiableException)).
Proof.
  split; [|split; [vm_compute; reflexivity|]].
  - intros rs s. destruct rs as [|r1 [|r2 [|r3 rs]]]; vm_compute; done.
  - intros rs. destruct rs as [|r1 [|r2 [|r3 rs]]]; vm_compute; done.
Qed.

(** C5, amended: for every accepted request of old.py the search ends once
    it has [draws_needed] draws, and it ends in one of three ways: [set_items]
    returns, and then the sequence has the full derived length and no count
    is left; or the search has taken back every item and calls [exit()]
    ([SystemExit]); or, only when [max_repeat >= 2], [repeat_limit_reached]
    raises [TypeError].  [set_items] never returns a shorter sequence. *)
Theorem C5_search_ends_complete_or_exits
    (nn t f : Z) (l : gmap Z Z) (m : Z) (rs : list nat) (s0 : Nback) :
  init nn t f l m = Ok s0 →
  (draws_needed s0 ≤ length rs)%nat →
  ∃ out, generate nn t f l m rs = Some out ∧
    match out with
    | Ok s =>
        Z.of_nat (length (items s)) = f + t + py_sum (py_values l) ∧
        ∀ k c, types_ints s !! k = Some c → c = 0
    | Raise e => e = SystemExit ∨ (e = TypeError ∧ 2 ≤ m)
    end.
Proof.
  intros Hinit Hrs.
  pose proof (set_items_terminates rs s0 Hrs) as Hterm.
  pose proof (init_Inv _ _ _ _ _ _ Hinit) as (Hinv & _ & _ & Hm & _).
  pose proof (set_items_outcome _ rs s0 Hinv (init_Sound _ _ _ _ _ _ Hinit))
    as Hout.
  assert (Hgen : generate nn t f l m rs = set_items rs s0)
    by (unfold generate; by rewrite Hinit).
  destruct (set_items rs s0) as [[s|e]|] eqn:Hrun; [| |done].
  - exists (Ok s). split; [done|].
    apply generate_Ok in Hgen
      as (T & [_ _ _ Hcnt Htot] & _ & _ & _ & _ & Hseq & Hlen & H0 & H1 & HT).
    unfold len_items in Hlen. split; [lia|].
    unfold remaining, len_items in Htot.
    assert (Hnn : ∀ x, x ∈ py_values (types_ints s) → 0 ≤ x).
    { intros x [k Hk]%elem_of_py_values. eauto. }
    pose proof (py_sum_nonneg _ Hnn).
    intros k c Hc. apply (py_sum_zero (py_values (types_ints s))); [done|lia|].
    apply elem_of_py_values. eauto.
  - exists (Raise e). split; [done|]. by rewrite <- Hm.
Qed.

Lemma C5_search_ends_complete_or_exits_witness :
  ∃ out, generate 1 1 1 {[2 := 1]} 0 (replicate 125 0%nat) = Some out ∧
    match out with
    | Ok s =>
        Z.of_nat (length (items s)) = 1 + 1 + py_sum (py_values {[2 := 1]}) ∧
        ∀ k c, types_ints s !! k = Some c → c = 0
    | Raise e => e = SystemExit ∨ (e = TypeError ∧ 2 ≤ 0)
    end.
Proof.
  eapply (C5_search_ends_complete_or_exits 1 1 1 {[2 := 1]} 0).
  - vm_compute. reflexivity.
  - apply Nat.leb_le. vm_compute. reflexivity.
Defined.

(** ** The counts of the types *)

(** When the request asks for no lures at distance 0 or [n], the counts add
    up to the length of the sequence at the start; [backtrack_Inv] and
    [add_item_Inv] keep the sum and the signs of the counts from there
    on. *)
Lemma init_counts_add_up (nn t f : Z) (l : gmap Z Z) (m : Z) (s0 : Nback) :
  init nn t f l m = Ok s0 →
  default 0 (l !! FILLER) = 0 → default 0 (l !! nn) = 0 →
  Inv (seqlength s0) s0.
Proof.
  intros (Hinv & _ & _ & _ & _ & _ & _ & _ & Hrem)%init_Inv H0 Hn.
  by replace (seqlength s0) with (remaining s0) by lia.
Qed.

(** C10 (old.py, lines 75 and 78): for the accepted request [n=1,
    targets=0, fillers=1, lures={1: 1}] the key 1 of [types_ints] holds the
    target count, so the lure is counted in [seqlength] but not in
    [types_ints]: after the first [add_item] (and after the backtrack that
    follows) the remaining counts and the placed items add up to 1, not to
    the sequence length 2, and the request ends in [exit()]. *)
Theorem C10_counts_miss_lure_at_n :
  ∃ s0 s1 s2 cur,
    init 1 0 1 {[1 := 1]} 0 = Ok s0 ∧
    add_item 0 s0 = Some (Ok s1) ∧
    seqlength s1 = 2 ∧ remaining s1 + len_items s1 = 1 ∧
    backtrack s1 = Ok (s2, cur) ∧
    seqlength s2 = 2 ∧ remaining s2 + len_items s2 = 1 ∧
    generate 1 0 1 {[1 := 1]} 0 [0; 0]%nat = Some (Raise SystemExit).
Proof. eexists _, _, _, _. vm_compute. repeat split; reflexivity. Qed.

End OldFacts.

(** * The placement of nback.py *)

Module NewFacts.
Import New.

(** [place] returns only the empty placement, and never raises
    [UnsatisfiableException]. *)
Lemma place_outcome (fillers : Z) (pairs : list Z) (available : option (gset Z))
    (item : Z) :
  match place fillers pairs available item with
  | Ok r => r = [] ∧ fillers = 0 ∧ pairs = []
  | Raise e => e = TypeError ∨ e = NameError
  end.
Proof.
  unfold place. destruct available as [a|]; [|by left].
  case_bool_decide; [by left|].
  destruct (_ && _) eqn:E; [|by right]. zbool.
  split; [done|]. split; [done|]. destruct pairs; [done | simpl in *; lia].
Qed.

(** [sequence] never returns: it raises [ValueError] when there are too few
    tokens, and otherwise the [TypeError] of [place], which is called
    without [available]. *)
Lemma sequence_never_returns {T : Type} (self : Nback)
    (tokens shuffled : list T) :
  sequence self tokens shuffled = Raise TypeError ∨
  is_ValueError (sequence self tokens shuffled).
Proof.
  unfold sequence. destruct (_ <? _); [by right | by left].
Qed.

End NewFacts.

(** * Further properties of the search of old.py *)

Module SearchFacts.
Import Old OldSpec Validation OldFacts.

(** ** Steps of the search *)

(** What a successful [add_item] has done: the loop has stopped in a state
    [s1] with available types [av1]; one of them, [ty], with a positive
    count, is given to a new item on top of the items of [s1]. *)
Lemma add_item_inv (r : nat) (self self' : Nback) :
  add_item r self = Some (Ok self') →
  ∃ av s1 av1 ty c x,
    get_types self = Ok av ∧
    backtrack_loop (length (items self)) self av = Some (Ok (s1, av1)) ∧
    ty ∈ av1 ∧ types_ints s1 !! ty = Some c ∧ 0 < c ∧
    (if ty =? FILLER then wordlist s1 = wordlist self' ++ [x]
     else wordlist self' = wordlist s1 ∧
          ∃ src, py_index (items s1) (- ty) = Ok src ∧ x = stim src) ∧
    self' =
      {| n := n s1; max_repeat := max_repeat s1;
         items := items s1 ++
                  [{| type := ty; stim := x; types_available := av1 |}];
         targets := targets s1; fillers := fillers s1; lures := lures s1;
         types_ints := <[ty := c - 1]> (types_ints s1);
         seqlength := seqlength s1; wordlist := wordlist self';
         backtrack_count := backtrack_count s1 |}.
Proof.
  unfold add_item.
  destruct (get_types self) as [av|] eqn:Hg; [|done].
  destruct (backtrack_loop _ _ _) as [[[s1 av1]|e]|] eqn:Hloop; [|done..].
  intros [= H].
  apply bind_Ok in H as (ty & Hty & H).
  apply bind_Ok in H as (c & Hc & H).
  apply bind_Ok in H as ([s3 x] & Hstim & H). injection H as <-.
  apply choose_random_itemtype_Ok in Hty as (Hin & c' & Hc' & Hpos).
  unfold py_getitem in Hc. rewrite Hc' in Hc. injection Hc as <-.
  exists av, s1, av1, ty, c', x. split_and!; try done.
  - unfold get_stim in Hstim. destruct (ty =? FILLER).
    + apply bind_Ok in Hstim as ([w y] & Hpop & [= <- <-]).
      by apply py_pop_Ok in Hpop.
    + apply bind_Ok in Hstim as (src & Hsrc & [= <- <-]). simpl. eauto.
  - unfold get_stim in Hstim. destruct (ty =? FILLER).
    + by apply bind_Ok in Hstim as ([w y] & Hpop & [= <- <-]).
    + by apply bind_Ok in Hstim as (src & Hsrc & [= <- <-]).
Qed.

(** A property kept by [backtrack] is kept by the loop of [add_item]. *)
Lemma backtrack_loop_preserves (P : Nback → Prop) (k : nat)
    (self s1 : Nback) (av av1 : list Z) :
  (∀ s s' cur, P s → backtrack s = Ok (s', cur) → P s') →
  P self → backtrack_loop k self av = Some (Ok (s1, av1)) → P s1.
Proof.
  intros Hstep. revert self av.
  induction k as [|k IH]; intros self av HP; simpl.
  - destruct av; [|by intros [= <- <-]].
    destruct (backtrack self) as [[s' cur]|e]; [done|]. by destruct e.
  - destruct av; [|by intros [= <- <-]].
    destruct (backtrack self) as [[s' cur]|e] eqn:Hb; [|by destruct e].
    apply IH. by eapply Hstep.
Qed.

(** A property kept by [backtrack] and by the placing of an item is kept by
    [add_item] and by [set_items]. *)
Lemma add_item_preserves (P : Nback → Prop) (r : nat) (self self' : Nback) :
  (∀ s s' cur, P s → backtrack s = Ok (s', cur) → P s') →
  (∀ s1 ty c x av1 w,
     P s1 → types_ints s1 !! ty = Some c → 0 < c →
     (if ty =? FILLER then wordlist s1 = w ++ [x] else w = wordlist s1) →
     P {| n := n s1; max_repeat := max_repeat s1;
          items := items s1 ++
                   [{| type := ty; stim := x; types_available := av1 |}];
          targets := targets s1; fillers := fillers s1; lures := lures s1;
          types_ints := <[ty := c - 1]> (types_ints s1);
          seqlength := seqlength s1; wordlist := w;
          backtrack_count := backtrack_count s1 |}) →
  P self → add_item r self = Some (Ok self') → P self'.
Proof.
  intros Hback Hplace HP
    (av & s1 & av1 & ty & c & x & _ & Hloop & _ & Hc & Hpos & Hw & ->)%add_item_inv.
  apply Hplace; [by eapply backtrack_loop_preserves|done..|].
  destruct (ty =? FILLER); [done | by destruct Hw].
Qed.

Lemma set_items_preserves (P : Nback → Prop) (rs : list nat)
    (self self' : Nback) :
  (∀ r s s', P s → add_item r s = Some (Ok s') → P s') →
  P self → set_items rs self = Some (Ok self') → P self'.
Proof.
  intros Hstep. revert self. induction rs as [|r rs IH]; intros self HP; simpl.
  - destruct (len_items self <? seqlength self); [done | by intros [= <-]].
  - destruct (len_items self <? seqlength self); [|by intros [= <-]].
    destruct (add_item r self) as [[s1|e]|] eqn:Ha; [|done..].
    apply IH. by eapply Hstep.
Qed.

(** ** Finished sequences: counts and tokens *)

Lemma finished_counts_zero
    (nn t f : Z) (l : gmap Z Z) (m : Z) (rs : list nat) (s : Nback) :
  generate nn t f l m rs = Some (Ok s) →
  ∀ k, default 0 (types_ints s !! k) = 0.
Proof.
  intros (T & Hinv & _ & _ & _ & _ & Hseq & Hlen & H0 & H1 & HT)%generate_Ok.
  destruct Hinv as [_ _ _ Hcnt Htot]. unfold remaining, len_items in *.
  assert (Hnn : ∀ x, x ∈ py_values (types_ints s) → 0 ≤ x).
  { intros x [k Hk]%elem_of_py_values. eauto. }
  pose proof (py_sum_nonneg _ Hnn).
  intros k. destruct (types_ints s !! k) as [c|] eqn:Hc; [|done]. simpl.
  apply (py_sum_zero (py_values (types_ints s))); [done|lia|].
  apply elem_of_py_values. eauto.
Qed.

Lemma default_lookup_insert (m : gmap Z Z) (k k' v : Z) :
  default 0 (<[k := v]> m !! k')
  = if decide (k = k') then v else default 0 (m !! k').
Proof.
  case_decide; [subst; by rewrite lookup_insert_eq|].
  by rewrite lookup_insert_ne.
Qed.

(** The remaining count of a type and the number of items of that type
    always add up to the count the search started with. *)
Lemma tally_kept (c0 : gmap Z Z) (rs : list nat) (self self' : Nback) :
  (∀ ty, default 0 (types_ints self !! ty) + occurrences ty (items self)
         = default 0 (c0 !! ty)) →
  set_items rs self = Some (Ok self') →
  ∀ ty, default 0 (types_ints self' !! ty) + occurrences ty (items self')
        = default 0 (c0 !! ty).
Proof.
  set (P := λ s : Nback,
         ∀ ty, default 0 (types_ints s !! ty) + occurrences ty (items s)
               = default 0 (c0 !! ty)).
  apply (set_items_preserves P).
  intros r s s'. apply (add_item_preserves P); unfold P.
  - clear. intros s s' cur HP
      (p & it & c & ta & Hp & Hty & _ & _ & ->)%backtrack_Ok ty. simpl.
    specialize (HP ty). rewrite Hp, occurrences_snoc in HP.
    rewrite default_lookup_insert.
    destruct (decide (type it = ty)) as [<-|Hne]; [|lia].
    rewrite Hty in HP. simpl in HP. lia.
  - clear. intros s1 ty c x av1 w HP Hc Hpos _ ty'. simpl.
    specialize (HP ty'). rewrite occurrences_snoc, default_lookup_insert. simpl.
    destruct (decide (ty = ty')) as [<-|Hne]; [|lia].
    rewrite Hc in HP. simpl in HP. lia.
Qed.

(** X1: a finished sequence holds exactly the requested number of items of
    every type: [targets] items of type [n], [fillers] fillers, and for a
    lure distance [d] other than [n] and 0 the count [lures[d]]. *)
Theorem X1_finished_sequence_has_requested_counts
    (nn t f : Z) (l : gmap Z Z) (m : Z) (rs : list nat) (s : Nback) :
  generate nn t f l m rs = Some (Ok s) →
  occurrences nn (items s) = t ∧
  occurrences FILLER (items s) = f ∧
  ∀ d, d ≠ nn → d ≠ FILLER → occurrences d (items s) = default 0 (l !! d).
Proof.
  intros Hgen. pose proof (finished_counts_zero _ _ _ _ _ _ _ Hgen) as Hzero.
  unfold generate in Hgen.
  destruct (init nn t f l m) as [s0|] eqn:Hinit; [|done].
  apply old_init_Ok in Hinit as (Hn & _ & _ & _ & _ & ->).
  match type of Hgen with
  | set_items _ ?s0 = _ =>
      pose proof (λ H, tally_kept (<[nn := t]> (<[FILLER := f]> l))
                         rs s0 s H Hgen) as Htally
  end.
  simpl in Htally. unfold occurrences at 1 in Htally. simpl in Htally.
  specialize (Htally ltac:(intros; lia)).
  assert (Hocc : ∀ ty, occurrences ty (items s)
                       = default 0 (<[nn := t]> (<[FILLER := f]> l) !! ty)).
  { intros ty. specialize (Htally ty). rewrite Hzero in Htally. lia. }
  split_and!.
  - by rewrite Hocc, lookup_insert_eq.
  - rewrite Hocc, lookup_insert_ne by (unfold FILLER; lia).
    by rewrite lookup_insert_eq.
  - intros d Hd1 Hd2. by rewrite Hocc, !lookup_insert_ne.
Qed.

Lemma X1_finished_sequence_has_requested_counts_witness :
  ∃ s, generate 1 1 2 {[2 := 1]} 0 [0; 0; 0; 0; 0]%nat = Some (Ok s) ∧
       occurrences 1 (items s) = 1 ∧
       occurrences FILLER (items s) = 2 ∧
       ∀ d, d ≠ 1 → d ≠ FILLER →
            occurrences d (items s)
            = default 0 (({[2 := 1]} : gmap Z Z) !! d).
Proof.
  eexists. split; [vm_compute; reflexivity|].
  apply (X1_finished_sequence_has_requested_counts
           1 1 2 {[2 := 1]} 0 [0; 0; 0; 0; 0]%nat).
  vm_compute. reflexivity.
Defined.

Lemma generate_Sound
    (nn t f : Z) (l : gmap Z Z) (m : Z) (rs : list nat) (s : Nback) :
  generate nn t f l m rs = Some (Ok s) → Sound s.
Proof.
  unfold generate. destruct (init nn t f l m) as [s0|] eqn:Hinit; [|done].
  pose proof (init_Inv _ _ _ _ _ _ Hinit) as (Hinv & _).
  pose proof (init_Sound _ _ _ _ _ _ Hinit) as Hs.
  intros Hrun.
  enough (∃ T, Inv T s ∧ Sound s) as (? & _ & ?) by done.
  revert Hrun. apply (set_items_preserves (λ s, ∃ T, Inv T s ∧ Sound s)); [|eauto].
  intros r s1 s2 (T & Hi & Hso) Ha. exists T.
  split; [by eapply add_item_Inv|].
  pose proof (add_item_outcome T r s1 Hi Hso) as Hout. by rewrite Ha in Hout.
Qed.

Lemma finished_tokens
    (nn t f : Z) (l : gmap Z Z) (m : Z) (rs : list nat) (s : Nback) :
  generate nn t f l m rs = Some (Ok s) →
  wordlist s = [] ∧ filler_stims (items s) = py_range f.
Proof.
  intros Hgen. pose proof (finished_counts_zero _ _ _ _ _ _ _ Hgen FILLER) as Hz.
  pose proof (generate_Sound _ _ _ _ _ _ _ Hgen) as [_ Hw _].
  apply generate_Ok in Hgen as (T & [_ _ HW _ _] & _ & _ & _ & Hf & _).
  rewrite Hw in Hz. simpl in Hz.
  assert (wordlist s = []) as Hnil by (destruct (wordlist s); [done | simpl in Hz; lia]).
  split; [done|]. rewrite Hnil, Hf in HW. simpl in HW.
  apply (f_equal reverse) in HW. by rewrite !reverse_involutive in HW.
Qed.

(** X2: when [set_items] returns, every token of [wordlist] has been used,
    and the fillers of the sequence carry the tokens [0, 1, ..., fillers-1]
    in this order (the k-th filler has the stimulus k). *)
Theorem X2_fillers_carry_tokens_in_order
    (nn t f : Z) (l : gmap Z Z) (m : Z) (rs : list nat) (s : Nback) :
  generate nn t f l m rs = Some (Ok s) →
  wordlist s = [] ∧
  stim <$> filter is_filler (items s) = py_range f.
Proof. apply finished_tokens. Qed.

Lemma X2_fillers_carry_tokens_in_order_witness :
  ∃ s, generate 1 1 2 {[2 := 1]} 0 [0; 0; 0; 0; 0]%nat = Some (Ok s) ∧
       wordlist s = [] ∧
       stim <$> filter is_filler (items s) = py_range 2.
Proof.
  eexists. split; [vm_compute; reflexivity|].
  apply (X2_fillers_carry_tokens_in_order 1 1 2 {[2 := 1]} 0 [0; 0; 0; 0; 0]%nat).
  vm_compute. reflexivity.
Defined.

(** ** Finished sequences: positions *)

(** X3: in a finished sequence every item has a known type (filler, [n] or
    a key of [lures]), and an item that is not a filler stands at least as
    many positions from the start as its type says: a target never
    occurs among the first [n] items, a lure of distance [d] never among
    the first [d]. *)
Theorem X3_back_reference_inside_sequence
    (nn t f : Z) (l : gmap Z Z) (m : Z) (rs : list nat) (s : Nback)
    (i : Z) (it : item) :
  generate nn t f l m rs = Some (Ok s) →
  item_at (items s) i = Some it →
  (type it = FILLER ∨ type it = nn ∨ type it ∈ dom l) ∧
  (type it ≠ FILLER → 0 < type it ≤ i).
Proof.
  intros (T & [_ Hwf _ _ _] & Hn & _ & Hl & _)%generate_Ok [Hi Hit]%item_at_Some.
  pose proof (lookup_lt_Some _ _ _ Hit) as Hlt.
  destruct (wf_items_lookup _ _ _ _ Hwf Hit) as [_ (Hin & Hadm & _)].
  rewrite Forall_forall in Hadm. specialize (Hadm _ Hin). split.
  - apply admissible_static in Hadm. simpl in Hadm. by rewrite Hn, Hl in Hadm.
  - intros Hne. destruct Hadm as [?|(Hpos & Hlen & _)]; [done|].
    unfold len_items in Hlen. simpl in Hlen.
    rewrite length_take_le in Hlen by lia. lia.
Qed.

Lemma X3_back_reference_inside_sequence_witness :
  ∃ s it, generate 2 1 2 {[1 := 1]} 0 [0; 2; 1; 0]%nat = Some (Ok s) ∧
          item_at (items s) 3 = Some it ∧
          (type it = FILLER ∨ type it = 2
           ∨ type it ∈ dom ({[1 := 1]} : gmap Z Z)) ∧
          (type it ≠ FILLER → 0 < type it ≤ 3).
Proof.
  eexists _, _. split; [vm_compute; reflexivity|].
  split; [vm_compute; reflexivity|].
  eapply (X3_back_reference_inside_sequence 2 1 2 {[1 := 1]} 0 [0; 2; 1; 0]%nat).
  - vm_compute. reflexivity.
  - vm_compute. reflexivity.
Defined.

Lemma elem_of_py_range (k x : Z) : x ∈ py_range k ↔ 0 ≤ x < k.
Proof.
  unfold py_range. rewrite list_elem_of_fmap. split.
  - intros (y & -> & Hy%elem_of_seq). lia.
  - intros Hx. exists (Z.to_nat x). split; [lia|]. apply elem_of_seq. lia.
Qed.

(** X4: every stimulus of a finished sequence is one of the tokens
    [0 .. fillers-1], and it is introduced by a filler: at the same or an
    earlier position there is a filler with this stimulus. *)
Theorem X4_stimulus_introduced_by_filler
    (nn t f : Z) (l : gmap Z Z) (m : Z) (rs : list nat) (s : Nback)
    (i : Z) (it : item) :
  generate nn t f l m rs = Some (Ok s) →
  item_at (items s) i = Some it →
  0 ≤ stim it < f ∧
  ∃ j a, 0 ≤ j ≤ i ∧ item_at (items s) j = Some a ∧
         is_filler a ∧ stim a = stim it.
Proof.
  intros Hgen [Hi Hit]%item_at_Some.
  pose proof (finished_tokens _ _ _ _ _ _ _ Hgen) as [_ Htok].
  apply generate_Ok in Hgen as (T & [_ Hwf _ _ _] & _).
  split.
  - apply elem_of_py_range. rewrite <- Htok.
    eapply wf_items_stims; [done|]. by eapply list_elem_of_lookup_2.
  - destruct (wf_items_lookup _ _ _ _ Hwf Hit) as [Hwf' Hok].
    assert (Hin : stim it ∈ filler_stims (take (Z.to_nat i) (items s) ++ [it])).
    { eapply wf_items_stims; [by constructor|].
      apply elem_of_app. right. by left. }
    unfold filler_stims in Hin.
    apply list_elem_of_fmap in Hin as (a & Ha & Hfa).
    apply list_elem_of_filter in Hfa as [Hfil Hfa].
    rewrite <- (take_S_r _ _ _ Hit) in Hfa.
    apply list_elem_of_lookup in Hfa as (j & Hj).
    apply lookup_take_Some in Hj as [Hj Hlt].
    exists (Z.of_nat j), a. split; [lia|]. split; [|done].
    apply item_at_Some. split; [lia|]. by rewrite Nat2Z.id.
Qed.

Lemma X4_stimulus_introduced_by_filler_witness :
  ∃ s it, generate 2 1 2 {[1 := 1]} 0 [0; 2; 1; 0]%nat = Some (Ok s) ∧
          item_at (items s) 3 = Some it ∧
          0 ≤ stim it < 2 ∧
          ∃ j a, 0 ≤ j ≤ 3 ∧ item_at (items s) j = Some a ∧
                 is_filler a ∧ stim a = stim it.
Proof.
  eexists _, _. split; [vm_compute; reflexivity|].
  split; [vm_compute; reflexivity|].
  eapply (X4_stimulus_introduced_by_filler 2 1 2 {[1 := 1]} 0 [0; 2; 1; 0]%nat).
  - vm_compute. reflexivity.
  - vm_compute. reflexivity.
Defined.

(** ** [backtrack] after [add_item] *)

(** X5: [backtrack] undoes [add_item]: when [get_types] offers at least one
    type, the item placed by [add_item] is taken back by [backtrack] with
    the items, the counts and the tokens as they were before (only
    [backtrack_count] has grown by one), and the type tried is struck off the
    types available to the item. *)
Theorem X5_backtrack_undoes_add_item
    (r : nat) (self self' : Nback) (av : list Z) :
  get_types self = Ok av → av ≠ [] →
  add_item r self = Some (Ok self') →
  ∃ cur,
    backtrack self'
    = Ok (with_backtrack_count (backtrack_count self + 1) self, cur) ∧
    type cur ∈ av ∧
    py_remove (type cur) av = Ok (types_available cur).
Proof.
  intros Hg Hne
    (av' & s1 & av1 & ty & c & x & Hg' & Hloop & Hin & Hc & Hpos & Hw & ->)%add_item_inv.
  rewrite Hg in Hg'. injection Hg' as <-.
  assert (s1 = self ∧ av1 = av) as [-> ->].
  { destruct (items self), av; simpl in Hloop; try done;
      by injection Hloop as <- <-. }
  destruct (py_remove_elem_of _ _ Hin) as [ta Hta].
  exists {| type := ty; stim := x; types_available := ta |}.
  split; [|by split].
  unfold backtrack. simpl. rewrite py_pop_snoc. simpl.
  unfold py_getitem. rewrite lookup_insert_eq. simpl. rewrite Hta. simpl.
  f_equal. f_equal.
  rewrite insert_insert_eq. replace (c - 1 + 1) with c by lia.
  rewrite (insert_id _ _ _ Hc).
  destruct self; simpl in *. unfold with_backtrack_count, with_types_ints,
    with_wordlist, with_items. simpl.
  destruct (ty =? FILLER); simpl; [by rewrite Hw | by destruct Hw as [-> _]].
Qed.

Lemma X5_backtrack_undoes_add_item_witness :
  init 2 1 2 {[1 := 1]} 0 = Ok Demo.start ∧
  ∃ cur,
    backtrack Demo.after_first_item
    = Ok (with_backtrack_count (backtrack_count Demo.start + 1) Demo.start,
          cur) ∧
    type cur ∈ [0] ∧
    py_remove (type cur) [0] = Ok (types_available cur).
Proof.
  split; [vm_compute; reflexivity|].
  apply (X5_backtrack_undoes_add_item 0 Demo.start Demo.after_first_item [0]).
  - vm_compute. reflexivity.
  - done.
  - vm_compute. reflexivity.
Defined.

(** ** The random choice of a type *)

Lemma expanded_closed_form (self : Nback) (av acc : list Z) :
  (∀ t, t ∈ av → is_Some (types_ints self !! t)) →
  for_each
    (λ itemtype expanded,
       let! c := py_getitem (types_ints self) itemtype in
       Ok (expanded ++ replicate (Z.to_nat c) itemtype)) av acc
  = Ok (acc ++ concat ((λ t, replicate
                               (Z.to_nat (default 0 (types_ints self !! t))) t)
                         <$> av)).
Proof.
  revert acc. induction av as [|t av IH]; intros acc Hav; simpl.
  - by rewrite app_nil_r.
  - destruct (Hav t) as [c Hc]; [by left|].
    unfold py_getitem at 1. rewrite Hc. simpl.
    rewrite IH by (intros u Hu; apply Hav; by right).
    by rewrite <- app_assoc.
Qed.

Lemma filter_eq_replicate (t x : Z) (k : nat) :
  length (filter (λ y, y = t) (replicate k x))
  = if decide (x = t) then k else 0%nat.
Proof.
  induction k as [|k IH]; simpl; [by destruct (decide (x = t))|].
  rewrite filter_cons. destruct (decide (x = t)); simpl; by rewrite IH.
Qed.

(** X6: [choose_random_itemtype] draws from a list in which every available
    type stands as often as its remaining count says (a count below zero
    counting as zero): the choice is weighted by the remaining counts. *)
Theorem X6_choice_weighted_by_remaining_counts (self : Nback) (av : list Z) :
  NoDup av → (∀ t, t ∈ av → is_Some (types_ints self !! t)) →
  ∃ expanded,
    (∀ r, choose_random_itemtype r self av = random_choice r expanded) ∧
    ∀ t, Z.of_nat (length (filter (λ y, y = t) expanded))
         = if decide (t ∈ av)
           then Z.max 0 (default 0 (types_ints self !! t)) else 0.
Proof.
  intros Hnd Hav. eexists. split.
  - intros r. unfold choose_random_itemtype.
    rewrite expanded_closed_form by done. simpl. reflexivity.
  - intros t. clear Hav. induction Hnd as [|x av Hx Hnd IH]; [done|].
    rewrite fmap_cons. cbn [concat].
    rewrite filter_app, length_app, filter_eq_replicate, Nat2Z.inj_add, IH.
    destruct (decide (x = t)) as [->|Hne].
    + rewrite decide_False by done. rewrite decide_True by (by left). lia.
    + destruct (decide (t ∈ av)) as [Hin|Hnin].
      * rewrite decide_True by (by right). lia.
      * rewrite decide_False; [lia|].
        intros [?|?]%elem_of_cons; [congruence | done].
Qed.

Lemma X6_choice_weighted_by_remaining_counts_witness :
  ∃ expanded,
    (∀ r, choose_random_itemtype r Demo.start [0; 1]
          = random_choice r expanded) ∧
    ∀ t, Z.of_nat (length (filter (λ y, y = t) expanded))
         = if decide (t ∈ [0; 1])
           then Z.max 0 (default 0 (types_ints Demo.start !! t)) else 0.
Proof.
  apply (X6_choice_weighted_by_remaining_counts Demo.start [0; 1]).
  - apply NoDup_cons. split; [|apply NoDup_singleton].
    intros H%list_elem_of_singleton. done.
  - intros t [->|[->|H]%elem_of_cons]%elem_of_cons; [by eexists..|].
    inversion H.
Defined.

(** X7: [choose_random_itemtype] raises [KeyError] when an available type
    is no key of [types_ints], and [IndexError] when no available type has
    a positive count, as for an empty list of types. *)
Theorem X7_choice_errors (r : nat) (self : Nback) (av : list Z) :
  ((∃ t, t ∈ av ∧ types_ints self !! t = None) →
   choose_random_itemtype r self av = Raise KeyError) ∧
  ((∀ t, t ∈ av → ∃ c, types_ints self !! t = Some c ∧ c ≤ 0) →
   choose_random_itemtype r self av = Raise IndexError).
Proof.
  split.
  - intros (t & Hin & Hnone). unfold choose_random_itemtype.
    generalize (@nil Z). induction av as [|x av IH]; intros acc; simpl;
      [inversion Hin|].
    unfold py_getitem at 1.
    destruct (types_ints self !! x) as [c|] eqn:Hc; simpl; [|done].
    apply elem_of_cons in Hin as [->|Hin]; [congruence|]. by apply IH.
  - intros Hav. unfold choose_random_itemtype.
    rewrite expanded_closed_form by (intros t (c & -> & _)%Hav; eauto).
    simpl.
    assert (Hnil : concat ((λ t, replicate
                     (Z.to_nat (default 0 (types_ints self !! t))) t) <$> av)
                   = []).
    { induction av as [|x av IH]; [done|]. simpl.
      destruct (Hav x) as (c & Hc & Hle); [by left|].
      rewrite Hc. simpl. replace (Z.to_nat c) with 0%nat by lia. simpl.
      apply IH. intros t Ht. apply Hav. by right. }
    by rewrite Hnil.
Qed.

Lemma X7_choice_errors_witness :
  choose_random_itemtype 0 Demo.start [5] = Raise KeyError ∧
  choose_random_itemtype 0 Demo.start [] = Raise IndexError.
Proof.
  split.
  - apply (X7_choice_errors 0 Demo.start [5]).
    exists 5. split; [by left | vm_compute; reflexivity].
  - apply (X7_choice_errors 0 Demo.start []). intros t H. inversion H.
Defined.

(** ** The types that [get_types] offers *)

Lemma get_types_lure_mono (self : Nback) (k : Z) (a a' : list Z) (x : Z) :
  get_types_lure self k a = Ok a' → x ∈ a → x ∈ a'.
Proof.
  unfold get_types_lure. intros (c & _ & H)%bind_Ok Hx.
  destruct (_ && _); [|by injection H as <-].
  apply bind_Ok in H as (d1 & _ & H).
  apply bind_Ok in H as (limit & _ & H).
  apply bind_Ok in H as (d2 & _ & H).
  destruct (d1 && d2); injection H as <-; [|done].
  apply elem_of_app. by left.
Qed.

Lemma get_types_lure_adds (self : Nback) (k c : Z) (a a' : list Z) :
  types_ints self !! k = Some c → 0 < c → admissible self k →
  k ≠ FILLER → k ≠ n self →
  get_types_lure self k a = Ok a' → k ∈ a'.
Proof.
  intros Hc Hpos [?|(Hk & Hlen & (limit & Hlim & Hd2) & [?|[_ Hd1]])] Hf Hn;
    [done..|].
  unfold get_types_lure, py_getitem. rewrite Hc. simpl.
  destruct (_ && _) eqn:E.
  2:{ apply andb_false_iff in E as [E|E]; zbool; lia. }
  rewrite Hlim.
  destruct (n self <=? len_items self) eqn:En; zbool.
  - rewrite (Hd1 En). simpl.
    destruct limit; [rewrite (Hd2 eq_refl)|]; simpl; intros [= <-];
      apply elem_of_app; right; by left.
  - simpl. destruct limit; [rewrite (Hd2 eq_refl)|]; simpl; intros [= <-];
      apply elem_of_app; right; by left.
Qed.

Lemma for_each_reaches {A S : Type} (Q : S → Prop) (body : A → S → res S)
    (l : list A) (x : A) (s s' : S) :
  x ∈ l → for_each body l s = Ok s' →
  (∀ a a', body x a = Ok a' → Q a') →
  (∀ y a a', Q a → body y a = Ok a' → Q a') →
  Q s'.
Proof.
  intros Hx Hrun Hadd Hkeep. revert s Hrun.
  induction l as [|y l IH]; intros s; simpl; [inversion Hx|].
  intros (a & Ha & Hrest)%bind_Ok.
  apply elem_of_cons in Hx as [->|Hx].
  - eapply (for_each_inv Q); [|by eapply Hadd|exact Hrest].
    intros z b b' _. apply Hkeep.
  - by eapply IH.
Qed.

(** X8: [get_types] offers exactly the types that have a positive remaining
    count and are admissible after the items placed so far: a filler
    whenever fillers are left; a target when [n] items are placed and, if
    the repeat limit is reached, the stimulus [n] back differs from the
    last one; a lure when its distance is covered, its stimulus differs from
    the one [n] back and, if the limit is reached, from the last one. *)
Theorem X8_get_types_offers_exactly_admissible
    (self : Nback) (av : list Z) (t : Z) :
  params_ok self → get_types self = Ok av →
  (t ∈ av ↔
   (∃ c, types_ints self !! t = Some c ∧ 0 < c) ∧ admissible self t).
Proof.
  intros Hpar Hg. split.
  - intros Ht. split; [by apply (get_types_live _ _ Hg)|].
    pose proof (get_types_admissible _ _ Hpar Hg) as Hadm.
    rewrite Forall_forall in Hadm. auto.
  - intros [(c & Hc & Hpos) Hadm].
    unfold get_types in Hg.
    apply bind_Ok in Hg as (cf & Hcf & Hg).
    apply bind_Ok in Hg as (ct & Hct & Hg).
    apply bind_Ok in Hg as (acc & Hacc & Hg).
    unfold py_getitem in Hcf, Hct.
    destruct (types_ints self !! FILLER) as [cf'|] eqn:Ecf; [|done].
    destruct (types_ints self !! n self) as [ct'|] eqn:Ect; [|done].
    injection Hcf as ->. injection Hct as ->.
    assert (Hkeep : t ∈ acc → t ∈ av).
    { intros Hin. eapply (for_each_inv (λ a, t ∈ a)); [|exact Hin|exact Hg].
      intros k a a' _ Ha Hk. by eapply get_types_lure_mono. }
    assert (Hacc' : ∀ x, x ∈ (if 0 <? cf then [] ++ [FILLER] else []) →
                         x ∈ acc).
    { intros x Hx. destruct (_ && _); [|by injection Hacc as <-].
      apply bind_Ok in Hacc as (limit & _ & Hacc).
      apply bind_Ok in Hacc as (ta & _ & Hacc).
      destruct ta; injection Hacc as <-; [|done]. apply elem_of_app. by left. }
    destruct (decide (t = FILLER)) as [->|Hf].
    { apply Hkeep, Hacc'. rewrite Ecf in Hc. injection Hc as <-.
      destruct (0 <? cf) eqn:E; zbool; [by left | lia]. }
    destruct Hadm as [?|(Ht0 & Hlen & (limit & Hlim & Hd2) & Hkind)]; [done|].
    destruct (decide (t = n self)) as [->|Hn].
    { apply Hkeep. rewrite Ect in Hc. injection Hc as <-.
      destruct (_ && _) eqn:E.
      2:{ apply andb_false_iff in E as [E|E]; zbool; lia. }
      rewrite Hlim in Hacc. simpl in Hacc.
      destruct limit; [rewrite (Hd2 eq_refl) in Hacc|]; simpl in Hacc;
        injection Hacc as <-; apply elem_of_app; right; by left. }
    destruct Hkind as [?|[Hdom Hd1]]; [done|].
    eapply (for_each_reaches (λ a, t ∈ a)); [|exact Hg| |].
    + by apply elem_of_py_keys.
    + intros a a'. apply (get_types_lure_adds self t c); try done.
      right. split_and!; eauto.
    + intros y a a' Hin Ha. by eapply get_types_lure_mono.
Qed.

Lemma X8_get_types_offers_exactly_admissible_witness :
  1 ∈ [0; 1] ↔
  (∃ c, types_ints Demo.after_first_item !! 1 = Some c ∧ 0 < c)
  ∧ admissible Demo.after_first_item 1.
Proof.
  apply (X8_get_types_offers_exactly_admissible Demo.after_first_item [0; 1] 1).
  - split_and!; try (vm_compute; done).
    intros k Hk. change (lures Demo.after_first_item) with
      ({[1 := 1]} : gmap Z Z) in Hk.
    apply elem_of_dom in Hk as [c Hc].
    destruct (decide (k = 1)) as [->|Hne]; [lia|].
    by rewrite lookup_singleton_ne in Hc.
  - vm_compute. reflexivity.
Defined.

Lemma get_types_lure_cases (self : Nback) (k : Z) (a a' : list Z) :
  get_types_lure self k a = Ok a' →
  a' = a ∨ (a' = a ++ [k] ∧ k ≠ n self).
Proof.
  unfold get_types_lure. intros (c & _ & H)%bind_Ok.
  destruct (_ && _) eqn:E; [|injection H as <-; by left]. zbool.
  apply bind_Ok in H as (d1 & Hd1 & H).
  apply bind_Ok in H as (limit & _ & H).
  apply bind_Ok in H as (d2 & _ & H).
  destruct (d1 && d2) eqn:Ed; injection H as <-; [|by left]. zbool. subst.
  right. split; [done|]. intros ->.
  destruct (n self <=? len_items self) eqn:En; zbool; [|lia].
  apply items_different_true in Hd1 as (x & y & Hx & Hy & Hne). congruence.
Qed.

Lemma for_each_lure_NoDup (self : Nback) (ks acc av : list Z) :
  NoDup ks → NoDup acc → (∀ x, x ∈ acc → x ∈ ks → x = n self) →
  for_each (get_types_lure self) ks acc = Ok av → NoDup av.
Proof.
  intros Hks. revert acc. induction Hks as [|k ks Hk Hks IH];
    intros acc Hacc Hsep; simpl.
  - by intros [= <-].
  - intros (a & Ha & Hrest)%bind_Ok.
    apply get_types_lure_cases in Ha as [->|[-> Hkn]].
    + apply (IH acc); [done| |done]. intros x Hx Hx'. apply Hsep; [done|].
      by right.
    + apply (IH (acc ++ [k])); [| |done].
      * apply NoDup_app. split; [done|]. split; [|apply NoDup_singleton].
        intros x Hx Hx2%list_elem_of_singleton. subst x.
        apply Hkn, Hsep; [done|by left].
      * intros x [Hx|Hx%list_elem_of_singleton]%elem_of_app Hx';
          [|by subst x].
        apply Hsep; [done|]. by right.
Qed.

(** X9: when 0 is no lure distance, [get_types] offers every type at most
    once, so that the [remove] of [backtrack] strikes a tried type off for
    good. *)
Theorem X9_get_types_without_duplicates (self : Nback) (av : list Z) :
  1 ≤ n self → FILLER ∉ dom (lures self) →
  get_types self = Ok av → NoDup av.
Proof.
  intros Hn Hf. unfold get_types.
  intros (cf & _ & H)%bind_Ok.
  apply bind_Ok in H as (ct & _ & H).
  apply bind_Ok in H as (acc & Hacc & H).
  assert (Hacc' : NoDup acc ∧ ∀ x, x ∈ acc → x = FILLER ∨ x = n self).
  { assert (Hnf : n self ≠ FILLER) by (unfold FILLER; lia).
    assert (Hsmall : ∀ l : list Z,
              l = [] ∨ l = [FILLER] ∨ l = [n self] ∨ l = [FILLER; n self] →
              NoDup l ∧ ∀ x, x ∈ l → x = FILLER ∨ x = n self).
    { intros l [-> | [-> | [-> | ->]]]; split;
        try (intros x Hx; repeat (apply elem_of_cons in Hx as [-> | Hx]);
             auto; by inversion Hx).
      - apply NoDup_nil_2.
      - apply NoDup_singleton.
      - apply NoDup_singleton.
      - apply NoDup_cons. split; [|apply NoDup_singleton].
        intros H'%list_elem_of_singleton. done. }
    apply Hsmall. destruct (_ && _).
    - apply bind_Ok in Hacc as (limit & _ & Hacc).
      apply bind_Ok in Hacc as (ta & _ & Hacc).
      destruct ta, (0 <? cf); injection Hacc as <-; simpl; auto.
    - destruct (0 <? cf); injection Hacc as <-; simpl; auto. }
  destruct Hacc' as [Hnd Hsub].
  eapply for_each_lure_NoDup; [| |  |exact H]; [|done|].
  - unfold py_keys. apply NoDup_fst_map_to_list.
  - intros x Hx Hk%elem_of_py_keys. destruct (Hsub x Hx) as [-> | ->]; done.
Qed.

Lemma X9_get_types_without_duplicates_witness : NoDup [0; 1].
Proof.
  apply (X9_get_types_without_duplicates Demo.after_first_item [0; 1]).
  - vm_compute. done.
  - change (lures Demo.after_first_item) with ({[1 := 1]} : gmap Z Z).
    rewrite dom_singleton_L. intros H%elem_of_singleton. done.
  - vm_compute. reflexivity.
Defined.

End SearchFacts.

(** * Further properties of the validation *)

Module ValidationFacts.
Import Validation OldFacts.

Lemma foldr_min_elem (x : Z) (l : list Z) : foldr Z.min x l ∈ x :: l.
Proof.
  induction l as [|y l IH]; simpl; [by left|].
  destruct (Z.min_spec y (foldr Z.min x l)) as [[_ ->]|[_ ->]].
  - right. by left.
  - apply elem_of_cons in IH as [->|IH]; [by left | right; by right].
Qed.

Lemma py_min_elem (l : list Z) (m : Z) : py_min l = Ok m → m ∈ l.
Proof.
  destruct l as [|x l]; simpl; [done|]. intros [= <-]. apply foldr_min_elem.
Qed.

Lemma foldr_max_spec (x : Z) (l : list Z) :
  foldr Z.max x l ∈ x :: l ∧ ∀ y, y ∈ x :: l → y ≤ foldr Z.max x l.
Proof.
  induction l as [|z l [IH1 IH2]]; simpl.
  - split; [by left|]. intros y Hy%list_elem_of_singleton. lia.
  - split.
    + destruct (Z.max_spec z (foldr Z.max x l)) as [[_ ->]|[_ ->]].
      * apply elem_of_cons in IH1 as [->|IH1]; [by left | right; by right].
      * right. by left.
    + intros y [->|[->|Hy]%elem_of_cons]%elem_of_cons.
      * specialize (IH2 x ltac:(by left)). lia.
      * lia.
      * specialize (IH2 y ltac:(by right)). lia.
Qed.

Lemma py_max_spec (l : list Z) (m : Z) :
  py_max l = Ok m → m ∈ l ∧ ∀ y, y ∈ l → y ≤ m.
Proof.
  destruct l as [|x l]; simpl; [done|]. intros [= <-]. apply foldr_max_spec.
Qed.

Lemma py_max_Ok (l : list Z) : l ≠ [] → ∃ m, py_max l = Ok m.
Proof. destruct l; [done | simpl; eauto]. Qed.

Lemma elem_of_lure_sums (l : gmap Z Z) (x : Z) :
  x ∈ (λ kv : Z * Z, kv.1 + kv.2) <$> map_to_list l ↔
  ∃ k c, l !! k = Some c ∧ x = k + c.
Proof.
  rewrite list_elem_of_fmap. split.
  - intros ([k c] & -> & H%elem_of_map_to_list). eauto.
  - intros (k & c & H & ->). exists (k, c). split; [done|].
    by apply elem_of_map_to_list.
Qed.

(** The requests that old.py accepts. *)
Lemma old_init_accepts (nn t f : Z) (l : gmap Z Z) (m : Z) :
  1 ≤ nn → 0 ≤ t → 0 ≤ f → 0 ≤ m → l ≠ ∅ →
  (∀ k c, l !! k = Some c →
          0 ≤ k ∧ 0 ≤ c ∧ k + c ≤ f + t + py_sum (py_values l)) →
  (nn ≤ f ∨ ∃ k, k ∈ dom l ∧ k ≤ f) →
  (m = 1 → nn ≠ 1 ∧ ∀ c, l !! 1 = Some c → c ≤ 0) →
  ∃ s, Old.init nn t f l m = Ok s.
Proof.
  intros Hn Ht Hf Hm Hne Hl Hmin Hrule. unfold Old.init.
  destruct (nn <? 1) eqn:E1; [zbool; lia|].
  assert (Hvals : py_any (λ c, c <? 0) (py_values l) = false).
  { apply py_any_false. intros c [k Hk]%elem_of_py_values.
    apply Hl in Hk. apply Z.ltb_ge. lia. }
  rewrite Hvals.
  destruct (t <? 0) eqn:E2; [zbool; lia|].
  destruct (f <? 0) eqn:E3; [zbool; lia|]. simpl.
  destruct (py_min_Ok (py_keys l ++ [nn]) nn) as [mn Hmn].
  { apply elem_of_app. right. by left. }
  rewrite Hmn. simpl.
  assert (mn ≤ f).
  { destruct Hmin as [?|(k & Hk & ?)].
    - assert (mn ≤ nn); [|lia]. eapply py_min_le; [done|].
      apply elem_of_app. right. by left.
    - assert (mn ≤ k); [|lia]. eapply py_min_le; [done|].
      apply elem_of_app. left. by apply elem_of_py_keys. }
  destruct (f <? mn) eqn:E4; [zbool; lia|].
  assert (Hkeys : py_any (λ i, i <? 0) (py_keys l) = false).
  { apply py_any_false. intros k [c Hk]%elem_of_py_keys%elem_of_dom.
    apply Hl in Hk. apply Z.ltb_ge. lia. }
  rewrite Hkeys.
  destruct (m <? 0) eqn:E6; [zbool; lia|].
  match goal with
  | |- ∃ s, bind ?c _ = _ => assert (Hr : c = Ok ())
  end.
  { destruct (m =? 1) eqn:E7; [|done]. zbool.
    destruct (Hrule E7) as [Hn1 Hc].
    destruct (nn =? 1) eqn:E8; [zbool; lia|].
    destruct (l !! 1) as [c|] eqn:E9; [|done].
    specialize (Hc c eq_refl). destruct (0 <? c) eqn:E10; [zbool; lia | done]. }
  rewrite Hr. simpl.
  destruct (py_max_Ok ((λ kv : Z * Z, kv.1 + kv.2) <$> map_to_list l))
    as [mx Hmx].
  { intros H'%fmap_nil_inv. by apply map_to_list_empty_iff in H'. }
  rewrite Hmx. simpl.
  apply py_max_spec in Hmx as [(k & c & Hk & ->)%elem_of_lure_sums _].
  apply Hl in Hk.
  destruct (_ <? k + c) eqn:E11; [zbool; lia|]. eauto.
Qed.

(** X10: old.py accepts a request exactly when [n >= 1], no count is
    negative, [lures] is not empty and has no negative distance, there are
    at least as many fillers as the smallest of [n] and the lure distances,
    [max_repeat >= 0], with [max_repeat == 1] neither [n == 1] nor a
    positive count of 1-lures, and every lure distance plus its count is at
    most the sequence length.  Every other request raises [ValueError]. *)
Theorem X10_old_init_accepts_exactly
    (nn t f : Z) (l : gmap Z Z) (m : Z) :
  ((∃ s, Old.init nn t f l m = Ok s) ↔
   1 ≤ nn ∧ 0 ≤ t ∧ 0 ≤ f ∧ 0 ≤ m ∧ l ≠ ∅ ∧
   (∀ k c, l !! k = Some c →
           0 ≤ k ∧ 0 ≤ c ∧ k + c ≤ f + t + py_sum (py_values l)) ∧
   (nn ≤ f ∨ ∃ k, k ∈ dom l ∧ k ≤ f) ∧
   (m = 1 → nn ≠ 1 ∧ ∀ c, l !! 1 = Some c → c ≤ 0)) ∧
  (∀ e, Old.init nn t f l m = Raise e → ∃ msg, e = ValueError msg).
Proof.
  split; [split|].
  - intros [s Hinit]. pose proof Hinit as (Hn & Ht & Hf & Hm & Hl & _)%old_init_Ok.
    unfold Old.init in Hinit.
    destruct (nn <? 1) eqn:E1; [done|].
    destruct ((t <? 0) || (f <? 0) || py_any _ (py_values l)) eqn:E2; [done|].
    destruct (py_min (py_keys l ++ [nn])) as [mn|] eqn:E3; [simpl in Hinit|done].
    destruct (f <? mn) eqn:E4; [done|].
    destruct (py_any _ (py_keys l)) eqn:E5; [done|].
    destruct (m <? 0) eqn:E6; [done|].
    match type of Hinit with bind ?c _ = _ => destruct c eqn:E7 end;
      [simpl in Hinit|done].
    destruct (py_max _) as [mx|] eqn:E8; [simpl in Hinit|done].
    destruct (_ <? mx) eqn:E9; [done|]. zbool.
    assert (l ≠ ∅) by (intros ->; by rewrite map_to_list_empty in E8).
    apply py_max_spec in E8 as [_ Hmx].
    split_and!; try done.
    + intros k c Hk. destruct (Hl k c Hk). split_and!; try done.
      assert (k + c ≤ mx); [|lia]. apply Hmx, elem_of_lure_sums. eauto.
    + apply py_min_elem in E3.
      apply elem_of_app in E3 as [Hk%elem_of_py_keys|Hk%list_elem_of_singleton];
        [right; eauto | left; lia].
    + intros ->. simpl in E7.
      destruct (nn =? 1) eqn:E10; [done|]. zbool. split; [done|].
      intros c Hc. rewrite Hc in E7.
      destruct (0 <? c) eqn:E11; [done|]. zbool. lia.
  - intros (?&?&?&?&?&?&?&?). by apply old_init_accepts.
  - intros e. unfold Old.init.
    destruct (nn <? 1); [intros [= <-]; eauto|].
    destruct (_ || _); [intros [= <-]; eauto|].
    destruct (py_min_Ok (py_keys l ++ [nn]) nn) as [mn ->].
    { apply elem_of_app. right. by left. }
    simpl. destruct (f <? mn); [intros [= <-]; eauto|].
    destruct (py_any _ _); [intros [= <-]; eauto|].
    destruct (m <? 0); [intros [= <-]; eauto|].
    match goal with |- bind ?c _ = _ → _ => destruct c as [[]|e'] eqn:E7 end;
      simpl.
    + destruct (py_max _) as [mx|e'] eqn:E8; simpl.
      * destruct (_ <? mx); [intros [= <-]; eauto | done].
      * unfold py_max in E8. destruct (_ <$> _); [|done].
        injection E8 as <-. intros [= <-]. eauto.
    + intros [= <-]. destruct (m =? 1); [|done].
      destruct (nn =? 1); [injection E7 as <-; eauto|].
      destruct (l !! 1); [|done].
      destruct (0 <? z); [injection E7 as <-; eauto | done].
Qed.

Lemma pairs_length (l : list (Z * Z)) :
  (∀ kv, kv ∈ l → 0 ≤ kv.2) →
  Z.of_nat (length (concat ((λ kv : Z * Z, replicate (Z.to_nat kv.2) kv.1)
                              <$> l)))
  = py_sum (l.*2).
Proof.
  induction l as [|kv l IH]; intros Hl; [done|].
  rewrite !fmap_cons. cbn [concat]. rewrite length_app, length_replicate.
  unfold py_sum in *. simpl. rewrite Nat2Z.inj_add, IH.
  - specialize (Hl kv ltac:(by left)). lia.
  - intros x Hx. apply Hl. by right.
Qed.

(** What an accepted request of nback.py satisfies, and the object it
    builds. *)
Lemma new_init_Ok (level t f : Z) (l : gmap Z Z) (m : Z) (s : New.Nback) :
  New.init level t f (Some l) m = Ok s →
  1 ≤ level ∧ 0 ≤ t ∧ 0 ≤ f ∧ 0 ≤ m ∧ l ≠ ∅ ∧
  (∀ k c, l !! k = Some c → 0 < k ∧ 0 ≤ c ∧ k + c ≤ New._length s) ∧
  (level ≤ f ∨ ∃ k, k ∈ dom l ∧ k ≤ f) ∧
  (m = 1 → level ≠ 1 ∧ ∃ c, l !! 1 = Some c ∧ c ≤ 0) ∧
  New._length s = f + t + py_sum (py_values l) ∧
  Z.of_nat (length (New._pairs s)) = t + py_sum (py_values l) ∧
  New._unique s = f ∧ New._lures s = l ∧ New._level s = level.
Proof.
  unfold New.init. intros H.
  destruct (level <? 1) eqn:E1; [done|].
  destruct ((t <? 0) || (f <? 0)) eqn:E2; [done|]. simpl in H.
  destruct (py_min (py_values l)) as [mv|] eqn:E3; [simpl in H|done].
  destruct (mv <? 0) eqn:E4; [done|].
  destruct (py_min (py_keys l ++ [level])) as [mn|] eqn:E5; [simpl in H|done].
  destruct (f <? mn) eqn:E6; [done|].
  destruct (py_min (py_keys l)) as [mk|] eqn:E7; [simpl in H|done].
  destruct (mk <=? 0) eqn:E8; [done|].
  destruct (m <? 0) eqn:E9; [done|].
  match type of H with bind ?c _ = _ => destruct c eqn:E10 end;
    [simpl in H|done].
  destruct (py_max _) as [mx|] eqn:E11; [simpl in H|done].
  destruct (_ <? mx) eqn:E12; [done|]. injection H as <-. simpl. zbool.
  assert (Hvals : ∀ k c, l !! k = Some c → 0 ≤ c).
  { intros k c Hk. assert (mv ≤ c); [|lia]. eapply py_min_le; [done|].
    apply elem_of_py_values. eauto. }
  assert (Hlen : Z.of_nat (length (replicate (Z.to_nat t) level ++
             concat ((λ kv : Z * Z, replicate (Z.to_nat kv.2) kv.1)
                       <$> map_to_list l)))
           = t + py_sum (py_values l)).
  { rewrite length_app, length_replicate, Nat2Z.inj_add, pairs_length;
      [unfold py_values; lia|].
    intros [k c] Hkc%elem_of_map_to_list. simpl. eauto. }
  rewrite Hlen in *.
  apply py_max_spec in E11 as [_ Hmx].
  split_and!; try done; try lia.
  - intros ->. unfold py_values in E3. by rewrite map_to_list_empty in E3.
  - intros k c Hk. split_and!; [|by eapply Hvals|].
    + assert (mk ≤ k); [|lia]. eapply py_min_le; [done|].
      apply elem_of_py_keys, elem_of_dom. eauto.
    + assert (k + c ≤ mx); [|lia]. apply Hmx, elem_of_lure_sums. eauto.
  - apply py_min_elem in E5.
    apply elem_of_app in E5 as [Hk%elem_of_py_keys|Hk%list_elem_of_singleton];
      [right; eauto | left; lia].
  - intros ->. simpl in E10.
    destruct (level =? 1) eqn:E13; [done|]. zbool. split; [done|].
    destruct (l !! 1) as [c|] eqn:Hc; simpl in E10; [|done].
    destruct (0 <? c) eqn:E14; [done|]. zbool. eauto.
Qed.

(** X11: nback.py accepts no request that old.py rejects, and both derive
    the same sequence length: [_length] of nback.py is [seqlength] of
    old.py, the list [_pairs] has one entry for every target and every
    lure, and [_unique] is the number of fillers. *)
Theorem X11_new_init_stricter_than_old
    (level t f : Z) (l : gmap Z Z) (m : Z) (s : New.Nback) :
  New.init level t f (Some l) m = Ok s →
  ∃ s', Old.init level t f l m = Ok s' ∧
        New._length s = Old.seqlength s' ∧
        Z.of_nat (length (New._pairs s)) = t + py_sum (py_values l) ∧
        New._unique s = Old.fillers s'.
Proof.
  intros (Hn & Ht & Hf & Hm & Hne & Hl & Hmin & Hrule & Hlen & Hpairs & Hu & _)%new_init_Ok.
  destruct (old_init_accepts level t f l m) as [s' Hs']; try done.
  - intros k c Hk. apply Hl in Hk. lia.
  - intros Hm1. destruct (Hrule Hm1) as (? & c & Hc & ?). split; [done|].
    intros c' Hc'. congruence.
  - exists s'. split; [done|].
    apply old_init_Ok in Hs' as (_ & _ & _ & _ & _ & ->). simpl.
    by split_and!.
Qed.

Lemma X11_new_init_stricter_than_old_witness :
  ∃ s s', New.init 3 5 5 (Some {[1 := 2; 2 := 4]}) 0 = Ok s ∧
          Old.init 3 5 5 {[1 := 2; 2 := 4]} 0 = Ok s' ∧
          New._length s = Old.seqlength s' ∧
          Z.of_nat (length (New._pairs s))
          = 5 + py_sum (py_values {[1 := 2; 2 := 4]}) ∧
          New._unique s = Old.fillers s'.
Proof.
  eexists. 
  destruct (X11_new_init_stricter_than_old 3 5 5 {[1 := 2; 2 := 4]} 0
              (default {| New._level := 0; New._targets := 0;
                          New._fillers := 0; New._lures := ∅;
                          New._max_repeat := 0; New._pairs := [];
                          New._length := 0; New._unique := 0 |}
                 (match New.init 3 5 5 (Some {[1 := 2; 2 := 4]}) 0 with
                  | Ok s => Some s | Raise _ => None end)))
    as (s' & H1 & H2 & H3 & H4).
  - vm_compute. reflexivity.
  - exists s'. split; [vm_compute; reflexivity|]. by split_and!.
Defined.

(** X12: with the default [lures=None] nback.py accepts nothing: when the
    three numbers are in range the call of [lures.values()] raises
    [AttributeError], and otherwise an earlier check raises [ValueError]. *)
Theorem X12_new_init_default_lures_unusable (level t f m : Z) :
  (1 ≤ level → 0 ≤ t → 0 ≤ f →
   New.init level t f None m = Raise AttributeError) ∧
  (level < 1 ∨ t < 0 ∨ f < 0 → is_ValueError (New.init level t f None m)).
Proof.
  unfold New.init. split.
  - intros Hl Ht Hf.
    destruct (level <? 1) eqn:E1; [zbool; lia|].
    destruct (t <? 0) eqn:E2; [zbool; lia|].
    destruct (f <? 0) eqn:E3; [zbool; lia|]. done.
  - intros H.
    destruct (level <? 1) eqn:E1; [done|].
    destruct (t <? 0) eqn:E2; [done|].
    destruct (f <? 0) eqn:E3; [done|]. zbool. lia.
Qed.

Lemma X12_new_init_default_lures_unusable_witness :
  New.init 3 5 5 None 0 = Raise AttributeError ∧
  is_ValueError (New.init 0 5 5 None 0).
Proof.
  split.
  - apply (X12_new_init_default_lures_unusable 3 5 5 0); lia.
  - apply (X12_new_init_default_lures_unusable 0 5 5 0). lia.
Defined.

(** X13: an empty [lures] dictionary is rejected by both modules with a
    [ValueError], whatever the other arguments: in old.py at the latest by
    [max] of an empty list, in nback.py by [min] of an empty list. *)
Theorem X13_empty_lures_rejected (nn t f m : Z) :
  is_ValueError (Old.init nn t f ∅ m) ∧
  is_ValueError (New.init nn t f (Some ∅) m).
Proof.
  split.
  - unfold Old.init, py_keys, py_values. rewrite map_to_list_empty. simpl.
    destruct (nn <? 1); [done|].
    destruct ((t <? 0) || (f <? 0) || false); [done|].
    destruct (f <? nn); [done|].
    destruct (m <? 0); [done|].
    rewrite lookup_empty.
    destruct (m =? 1); [destruct (nn =? 1)|]; done.
  - unfold New.init.
    destruct (nn <? 1); [done|].
    destruct ((t <? 0) || (f <? 0)); simpl; [done|].
    unfold py_values. by rewrite map_to_list_empty.
Qed.

End ValidationFacts.

(** * Words and output of old.py *)

Module OutputFacts.
Import Old OldSpec OldOutput Validation OldFacts SearchFacts.

(** ** The selection of the words *)

Lemma remove_dups_length_equiv (l1 l2 : list string) :
  (∀ x, x ∈ l1 ↔ x ∈ l2) →
  length (remove_dups l1) = length (remove_dups l2).
Proof.
  intros H. apply Permutation_length, NoDup_Permutation;
    [apply NoDup_remove_dups..|].
  intros x. by rewrite !elem_of_remove_dups.
Qed.

Lemma remove_dups_length_NoDup (l : list string) :
  NoDup l → length (remove_dups l) = length l.
Proof.
  intros H. apply Permutation_length, NoDup_Permutation;
    [apply NoDup_remove_dups|done|].
  intros x. by rewrite elem_of_remove_dups.
Qed.

Lemma remove_dups_length_ge (sel stack : list string) :
  NoDup sel → (length sel ≤ length (remove_dups (sel ++ stack)))%nat.
Proof.
  intros H. apply submseteq_length, NoDup_submseteq; [done|].
  intros x Hx. apply elem_of_remove_dups, elem_of_app. by left.
Qed.

(** The loop fails exactly when the words selected so far and the words
    still on the stack are fewer than [fillers] different words, and then
    it reports their number. *)
Lemma select_words_spec (f : Z) (stack sel pr : list string) :
  NoDup sel →
  let d := Z.of_nat (length (remove_dups (sel ++ stack))) in
  if decide (d < f)
  then select_words f stack sel pr = WordlistError d f
  else ∃ sel' stack' pr',
         select_words f stack sel pr = WOk (sel', stack', pr') ∧
         NoDup sel' ∧
         Z.of_nat (length sel') = Z.max f (Z.of_nat (length sel)) ∧
         ∀ w, w ∈ sel' → w ∈ sel ++ stack.
Proof.
  revert sel pr. induction stack as [|stim stack IH]; intros sel pr Hnd d.
  - subst d. rewrite app_nil_r, remove_dups_length_NoDup by done. simpl.
    destruct (Z.of_nat (length sel) <? f) eqn:E; zbool.
    + by rewrite decide_True.
    + rewrite decide_False by lia. exists sel, [], pr.
      split_and!; [done..|lia|]. by intros w.
  - pose proof (remove_dups_length_ge sel (stim :: stack) Hnd) as Hge.
    simpl. destruct (Z.of_nat (length sel) <? f) eqn:E; zbool.
    2:{ subst d. rewrite decide_False by lia. exists sel, (stim :: stack), pr.
        split_and!; [done..|lia|]. intros w Hw. apply elem_of_app. by left. }
    case_bool_decide as Hin.
    + specialize (IH sel (pr ++ ["Removing duplicate word: " +:+ stim]) Hnd).
      simpl in IH.
      assert (Hd : length (remove_dups (sel ++ stim :: stack))
                   = length (remove_dups (sel ++ stack))).
      { apply remove_dups_length_equiv. intros x.
        rewrite !elem_of_app, elem_of_cons. split; [|tauto].
        intros [?|[->|?]]; auto. }
      subst d. rewrite Hd. destruct (decide _); [done|].
      destruct IH as (sel' & stack' & pr' & -> & ? & ? & Hsub).
      exists sel', stack', pr'. split_and!; try done.
      intros w Hw%Hsub. rewrite elem_of_app, elem_of_cons.
      apply elem_of_app in Hw. tauto.
    + assert (Hnd' : NoDup (sel ++ [stim])).
      { apply NoDup_app. split; [done|]. split; [|apply NoDup_singleton].
        intros x Hx Hx'%list_elem_of_singleton. by subst x. }
      specialize (IH (sel ++ [stim]) pr Hnd'). simpl in IH.
      subst d. rewrite <- app_assoc in IH. simpl in IH.
      destruct (decide _); [done|].
      destruct IH as (sel' & stack' & pr' & -> & ? & Hlen & Hsub).
      exists sel', stack', pr'. split_and!; try done.
      rewrite length_app in Hlen. simpl in Hlen. lia.
Qed.

(** On a list without duplicates the loop takes the words in order. *)
Lemma select_words_NoDup (f : Z) (k : nat) (stack sel pr : list string) :
  NoDup (sel ++ stack) → (k ≤ length stack)%nat →
  Z.max f (Z.of_nat (length sel)) = Z.of_nat (length sel) + Z.of_nat k →
  select_words f stack sel pr = WOk (sel ++ take k stack, drop k stack, pr).
Proof.
  revert stack sel. induction k as [|k IH]; intros stack sel Hnd Hk Hf.
  - rewrite take_0, drop_0, app_nil_r.
    destruct stack; simpl;
      (destruct (Z.of_nat (length sel) <? f) eqn:E; zbool; [lia | done]).
  - destruct stack as [|stim stack]; [simpl in Hk; lia|]. simpl.
    destruct (Z.of_nat (length sel) <? f) eqn:E; zbool; [|lia].
    rewrite bool_decide_eq_false_2.
    2:{ apply NoDup_app in Hnd as (_ & Hnd & _). intros Hin.
        apply (Hnd stim Hin). by left. }
    rewrite IH.
    + by rewrite <- app_assoc.
    + by rewrite <- app_assoc.
    + simpl in Hk. lia.
    + rewrite length_app. simpl. lia.
Qed.

(** X14: [set_words] raises [WordlistError] when the list, as shuffled,
    holds fewer different words than there are fillers, and the error
    reports the number of different words and the number of fillers. *)
Theorem X14_set_words_too_few_words
    (f : Z) (items : list pitem) (wordlist shuffled : list string)
    (randomize : bool) :
  let ws := if randomize then shuffled else wordlist in
  Z.of_nat (length (remove_dups ws)) < f →
  set_words_items f items wordlist shuffled randomize
  = WordlistError (Z.of_nat (length (remove_dups ws))) f.
Proof.
  intros ws Hlt. unfold set_words_items. fold ws.
  rewrite reverse_involutive.
  pose proof (select_words_spec f ws [] [] (NoDup_nil_2)) as H.
  simpl in H. rewrite decide_True in H by done. by rewrite H.
Qed.

Lemma X14_set_words_too_few_words_witness :
  set_words_items 2 [] ["a"; "a"; "a"] [] false = WordlistError 1 2.
Proof.
  apply (X14_set_words_too_few_words 2 [] ["a"; "a"; "a"] [] false).
  vm_compute. reflexivity.
Defined.

(** ** The words of a finished sequence *)

Lemma py_index_nonneg {A : Type} (l : list A) (z : Z) :
  0 ≤ z < Z.of_nat (length l) →
  ∃ x, py_index l z = Ok x ∧ l !! Z.to_nat z = Some x.
Proof.
  intros Hz. unfold py_index.
  destruct (z <? 0) eqn:E; zbool; [lia|].
  destruct (_ || _) eqn:E'.
  { apply orb_true_iff in E' as [?|?]; zbool; lia. }
  destruct (l !! Z.to_nat z) as [x|] eqn:El; [eauto|].
  apply lookup_ge_None in El. lia.
Qed.

Lemma for_each_set_word (selected : list string) (l : list item)
    (acc : list pitem) :
  (∀ it, it ∈ l → 0 ≤ stim it < Z.of_nat (length selected)) →
  ∃ its, for_each (set_word selected) (lift <$> l) acc = Ok (acc ++ its) ∧
         Forall2 (worded selected) l its.
Proof.
  revert acc. induction l as [|it l IH]; intros acc Hl.
  - exists []. simpl. by rewrite app_nil_r.
  - destruct (py_index_nonneg selected (stim it)) as (w & Hw & Hw').
    { apply Hl. by left. }
    rewrite fmap_cons. simpl. unfold set_word at 1. simpl. rewrite Hw. simpl.
    edestruct IH as (its & -> & Hits); [intros x Hx; apply Hl; by right|].
    eexists (_ :: its). rewrite <- app_assoc. split; [done|].
    constructor; [|done]. by exists w.
Qed.

Lemma finished_stims_in_range
    (nn t f : Z) (l : gmap Z Z) (m : Z) (rs : list nat) (s : Nback) :
  generate nn t f l m rs = Some (Ok s) →
  0 ≤ f ∧ ∀ it, it ∈ items s → 0 ≤ stim it < f.
Proof.
  intros Hgen. pose proof (finished_tokens _ _ _ _ _ _ _ Hgen) as [_ Htok].
  apply generate_Ok in Hgen as (T & [(_ & _ & Hf0 & _) Hwf _ _ _] & _ & _ & _ & Hf & _).
  split; [lia|]. intros it Hit. apply elem_of_py_range. rewrite <- Htok.
  by eapply wf_items_stims.
Qed.

Lemma set_words_generated
    (nn t f : Z) (l : gmap Z Z) (m : Z) (rs : list nat) (s : Nback)
    (wordlist shuffled : list string) (randomize : bool) :
  generate nn t f l m rs = Some (Ok s) →
  f ≤ Z.of_nat (length (remove_dups
                          (if randomize then shuffled else wordlist))) →
  ∃ selected its rest printed,
    set_words s wordlist shuffled randomize = WOk (its, rest, printed) ∧
    NoDup selected ∧ Z.of_nat (length selected) = f ∧
    (∀ w, w ∈ selected → w ∈ if randomize then shuffled else wordlist) ∧
    Forall2 (worded selected) (items s) its.
Proof.
  intros Hgen Hd.
  pose proof (finished_stims_in_range _ _ _ _ _ _ _ Hgen) as [Hf0 Hrange].
  apply generate_Ok in Hgen as (_ & _ & _ & _ & _ & Hf & _).
  unfold set_words, set_words_items. rewrite reverse_involutive, Hf.
  pose proof (select_words_spec f (if randomize then shuffled else wordlist)
                [] [] NoDup_nil_2) as H.
  simpl in H. rewrite decide_False in H by lia.
  destruct H as (sel & stack & pr & -> & Hnd & Hlen & Hsub).
  destruct (for_each_set_word sel (items s) []) as (its & -> & Hits).
  { intros it Hit. specialize (Hrange it Hit). lia. }
  exists sel, its, (reverse stack), pr. split_and!; try done. lia.
Qed.

(** X15: for a finished sequence [set_words] succeeds whenever the list, as
    shuffled, holds at least [fillers] different words: it selects
    [fillers] different words of the list, and every item keeps its type
    and gets the selected word whose index is its token. *)
Theorem X15_set_words_on_finished_sequence
    (nn t f : Z) (l : gmap Z Z) (m : Z) (rs : list nat) (s : Nback)
    (wordlist shuffled : list string) (randomize : bool) :
  generate nn t f l m rs = Some (Ok s) →
  f ≤ Z.of_nat (length (remove_dups
                          (if randomize then shuffled else wordlist))) →
  ∃ selected its rest printed,
    set_words s wordlist shuffled randomize = WOk (its, rest, printed) ∧
    NoDup selected ∧ Z.of_nat (length selected) = f ∧
    (∀ w, w ∈ selected → w ∈ if randomize then shuffled else wordlist) ∧
    length its = length (items s) ∧
    ∀ i it, items s !! i = Some it →
      ∃ w, selected !! Z.to_nat (stim it) = Some w ∧
           its !! i = Some {| ptype := type it; pstim := WordStim w;
                              ptypes_available := types_available it |}.
Proof.
  intros Hgen Hd.
  destruct (set_words_generated _ _ _ _ _ _ _ wordlist shuffled randomize
              Hgen Hd) as (sel & its & rest & pr & Hs & Hnd & Hlen & Hsub & Hits).
  exists sel, its, rest, pr. split_and!; try done.
  - symmetry. by eapply Forall2_length.
  - intros i it Hi.
    destruct (Forall2_lookup_l _ _ _ _ _ Hits Hi) as (pit & Hpit & w & Hw & ->).
    eauto.
Qed.

Lemma X15_set_words_on_finished_sequence_witness :
  ∃ selected its rest printed,
    set_words Demo.finished ["a"; "b"; "a"; "c"] [] false
    = WOk (its, rest, printed) ∧
    NoDup selected ∧ Z.of_nat (length selected) = 2 ∧
    (∀ w, w ∈ selected → w ∈ ["a"; "b"; "a"; "c"]) ∧
    length its = length (items Demo.finished) ∧
    ∀ i it, items Demo.finished !! i = Some it →
      ∃ w, selected !! Z.to_nat (stim it) = Some w ∧
           its !! i = Some {| ptype := type it; pstim := WordStim w;
                              ptypes_available := types_available it |}.
Proof.
  apply (X15_set_words_on_finished_sequence 2 1 2 {[1 := 1]} 0
           [0; 2; 1; 0]%nat Demo.finished ["a"; "b"; "a"; "c"] [] false).
  - vm_compute. reflexivity.
  - vm_compute. done.
Defined.

(** X16: [set_words] keeps the pattern of repetitions: in the result two
    positions carry the same word exactly when they carried the same token
    before, so targets and lures still repeat what they repeated and the
    fillers still differ from everything before them. *)
Theorem X16_set_words_keeps_repetitions
    (nn t f : Z) (l : gmap Z Z) (m : Z) (rs : list nat) (s : Nback)
    (wordlist shuffled rest printed : list string) (randomize : bool)
    (its : list pitem) (i j : nat) (a b : item) (pa pb : pitem) :
  generate nn t f l m rs = Some (Ok s) →
  set_words s wordlist shuffled randomize = WOk (its, rest, printed) →
  items s !! i = Some a → items s !! j = Some b →
  its !! i = Some pa → its !! j = Some pb →
  (pstim pa = pstim pb ↔ stim a = stim b).
Proof.
  intros Hgen Hset Ha Hb Hpa Hpb.
  pose proof (finished_stims_in_range _ _ _ _ _ _ _ Hgen) as [Hf0 Hrange].
  destruct (decide (Z.of_nat (length (remove_dups
              (if randomize then shuffled else wordlist))) < f)) as [Hlt|Hge].
  { exfalso. revert Hset. unfold set_words.
    apply generate_Ok in Hgen as (_ & _ & _ & _ & _ & -> & _).
    unfold set_words_items. rewrite reverse_involutive.
    pose proof (select_words_spec f (if randomize then shuffled else wordlist)
                  [] [] NoDup_nil_2) as H.
    simpl in H. rewrite decide_True in H by done. by rewrite H. }
  destruct (set_words_generated _ _ _ _ _ _ _ wordlist shuffled randomize
              Hgen ltac:(lia))
    as (sel & its' & rest' & pr' & Hs & Hnd & Hlen & _ & Hits).
  rewrite Hs in Hset. injection Hset as -> _ _.
  destruct (Forall2_lookup_l _ _ _ _ _ Hits Ha) as (pa' & Hpa' & wa & Hwa & ->).
  destruct (Forall2_lookup_l _ _ _ _ _ Hits Hb) as (pb' & Hpb' & wb & Hwb & ->).
  rewrite Hpa in Hpa'. rewrite Hpb in Hpb'.
  injection Hpa' as ->. injection Hpb' as ->. simpl.
  assert (0 ≤ stim a < f) by (apply Hrange; by eapply list_elem_of_lookup_2).
  assert (0 ≤ stim b < f) by (apply Hrange; by eapply list_elem_of_lookup_2).
  split.
  - intros [= ->].
    pose proof (NoDup_lookup _ _ _ _ Hnd Hwa Hwb). lia.
  - intros Heq. rewrite Heq in Hwa. congruence.
Qed.

Lemma X16_set_words_keeps_repetitions_witness :
  ∃ a b pa pb,
    items Demo.finished !! 1%nat = Some a ∧
    items Demo.finished !! 3%nat = Some b ∧
    DemoWords.items !! 1%nat = Some pa ∧ DemoWords.items !! 3%nat = Some pb ∧
    (pstim pa = pstim pb ↔ stim a = stim b).
Proof.
  eexists _, _, _, _.
  split; [vm_compute; reflexivity|]. split; [vm_compute; reflexivity|].
  split; [vm_compute; reflexivity|]. split; [vm_compute; reflexivity|].
  eapply (X16_set_words_keeps_repetitions 2 1 2 {[1 := 1]} 0 [0; 2; 1; 0]%nat
            Demo.finished ["a"; "b"; "a"; "c"] [] ["c"; "a"] [] false
            DemoWords.items 1 3);
    vm_compute; reflexivity.
Defined.

(** X17: with [randomize=False] and a list of different words, [set_words]
    gives the token [k] the [k]-th word of the list (so the fillers get the
    first [fillers] words in the order in which they occur), prints nothing
    and leaves the unused words in the caller's list, in reverse order. *)
Theorem X17_set_words_in_list_order
    (nn t f : Z) (l : gmap Z Z) (m : Z) (rs : list nat) (s : Nback)
    (wordlist shuffled : list string) :
  generate nn t f l m rs = Some (Ok s) →
  NoDup wordlist → f ≤ Z.of_nat (length wordlist) →
  ∃ its,
    set_words s wordlist shuffled false
    = WOk (its, reverse (drop (Z.to_nat f) wordlist), []) ∧
    ∀ i it, items s !! i = Some it →
      ∃ w, wordlist !! Z.to_nat (stim it) = Some w ∧
           its !! i = Some {| ptype := type it; pstim := WordStim w;
                              ptypes_available := types_available it |}.
Proof.
  intros Hgen Hnd Hlen.
  pose proof (finished_stims_in_range _ _ _ _ _ _ _ Hgen) as [Hf0 Hrange].
  apply generate_Ok in Hgen as (_ & _ & _ & _ & _ & Hf & _).
  unfold set_words, set_words_items. rewrite reverse_involutive, Hf.
  rewrite (select_words_NoDup f (Z.to_nat f)); [|done|lia|simpl; lia].
  simpl.
  destruct (for_each_set_word (take (Z.to_nat f) wordlist) (items s) [])
    as (its & -> & Hits).
  { intros it Hit. specialize (Hrange it Hit).
    rewrite length_take_le by lia. lia. }
  exists its. split; [done|]. intros i it Hi.
  destruct (Forall2_lookup_l _ _ _ _ _ Hits Hi) as (pit & Hpit & w & Hw & ->).
  exists w. split; [|done]. apply lookup_take_Some in Hw. tauto.
Qed.

Lemma X17_set_words_in_list_order_witness :
  ∃ its,
    set_words Demo.finished ["a"; "b"; "c"] [] false
    = WOk (its, reverse (drop (Z.to_nat 2) ["a"; "b"; "c"]), []) ∧
    ∀ i it, items Demo.finished !! i = Some it →
      ∃ w, ["a"; "b"; "c"] !! Z.to_nat (stim it) = Some w ∧
           its !! i = Some {| ptype := type it; pstim := WordStim w;
                              ptypes_available := types_available it |}.
Proof.
  apply (X17_set_words_in_list_order 2 1 2 {[1 := 1]} 0 [0; 2; 1; 0]%nat
           Demo.finished ["a"; "b"; "c"] []).
  - vm_compute. reflexivity.
  - repeat (apply NoDup_cons; split;
            [rewrite ?elem_of_cons, elem_of_nil; intros H; by intuition|]).
    apply NoDup_nil_2.
  - simpl. lia.
Defined.

(** X18: [set_words] cannot be applied a second time: when the first item
    already holds a word, the call ends in [WordlistError] (too few words)
    or in the [TypeError] of indexing a list with a word, never in a
    result. *)
Theorem X18_set_words_twice_fails
    (f : Z) (it : pitem) (items : list pitem) (w : string)
    (wordlist shuffled : list string) (randomize : bool) :
  pstim it = WordStim w →
  (∃ a b, set_words_items f (it :: items) wordlist shuffled randomize
          = WordlistError a b) ∨
  set_words_items f (it :: items) wordlist shuffled randomize
  = WRaise TypeError.
Proof.
  intros Hw. unfold set_words_items.
  destruct (select_words _ _ _ _) as [[[sel stack] pr]|a b|e] eqn:Hsel.
  - right. simpl. unfold set_word at 1. by rewrite Hw.
  - left. eauto.
  - exfalso. clear -Hsel. revert Hsel.
    generalize (@nil string) at 1. generalize (@nil string).
    induction (reverse (reverse _)) as [|x st IH]; intros pr sel; simpl.
    + by destruct (_ <? _).
    + destruct (_ <? _); [|done]. case_bool_decide; apply IH.
Qed.

Lemma X18_set_words_twice_fails_witness :
  (∃ a b, set_words_items 2 DemoWords.items ["d"; "e"] [] false
          = WordlistError a b) ∨
  set_words_items 2 DemoWords.items ["d"; "e"] [] false = WRaise TypeError.
Proof.
  apply (X18_set_words_twice_fails 2
           {| ptype := 0; pstim := WordStim "a"; ptypes_available := [0] |}
           _ "a" ["d"; "e"] [] false).
  reflexivity.
Defined.

(** ** The labels of the types *)

Lemma string_app_cons (a : Ascii.ascii) (s t : string) :
  String a s +:+ t = String a (s +:+ t).
Proof. reflexivity. Qed.

Lemma string_app_nil_l (t : string) : "" +:+ t = t.
Proof. reflexivity. Qed.

Lemma string_app_assoc (s1 s2 s3 : string) :
  (s1 +:+ s2) +:+ s3 = s1 +:+ (s2 +:+ s3).
Proof.
  induction s1 as [|a s1 IH]; [done|]. rewrite !string_app_cons. by f_equal.
Qed.

Lemma string_app_nil_r (s : string) : s +:+ "" = s.
Proof.
  induction s as [|a s IH]; [done|]. rewrite string_app_cons. by f_equal.
Qed.

Lemma string_length_app (s1 s2 : string) :
  String.length (s1 +:+ s2) = (String.length s1 + String.length s2)%nat.
Proof.
  induction s1 as [|a s1 IH]; [done|]. rewrite string_app_cons. simpl.
  by f_equal.
Qed.

Lemma string_app_inj_r (s1 s2 t : string) :
  s1 +:+ t = s2 +:+ t → s1 = s2.
Proof.
  revert s2. induction s1 as [|a s1 IH]; intros [|b s2];
    rewrite ?string_app_cons, ?string_app_nil_l; intros H.
  - done.
  - apply (f_equal String.length) in H. simpl in H.
    rewrite string_length_app in H. lia.
  - apply (f_equal String.length) in H. simpl in H.
    rewrite string_length_app in H. lia.
  - injection H as -> H. f_equal. by apply IH.
Qed.

Lemma lure_label_other (s : string) :
  s +:+ "lure" ≠ "target" ∧ s +:+ "lure" ≠ "filler".
Proof.
  split; intros H; pose proof (f_equal String.length H) as Hlen;
    rewrite string_length_app in Hlen; simpl in Hlen;
    destruct s as [|a [|b [|c s]]]; simpl in Hlen; try lia;
    rewrite !string_app_cons, string_app_nil_l in H; discriminate.
Qed.

Lemma types_strings_lookup (self : Nback) (t : Z) :
  types_strings self !! t
  = if decide (t = n self) then Some "target"
    else if decide (t = FILLER) then Some "filler"
    else if decide (t ∈ dom (lures self)) then Some (pretty t +:+ "lure")
    else None.
Proof.
  unfold types_strings.
  destruct (decide (t = n self)) as [->|Hn]; [by rewrite lookup_insert_eq|].
  rewrite lookup_insert_ne by done.
  destruct (decide (t = FILLER)) as [->|Hf]; [by rewrite lookup_insert_eq|].
  rewrite lookup_insert_ne by done. rewrite map_lookup_imap.
  destruct (decide (t ∈ dom (lures self))) as [[c Hc]%elem_of_dom|Hd].
  - by rewrite Hc.
  - apply not_elem_of_dom in Hd. by rewrite Hd.
Qed.

(** X19: [types_strings] labels the type [n] "target" (also when [n] is a
    lure distance), the type 0 "filler" and any other lure distance [d]
    with the digits of [d] followed by "lure"; types that are no key have
    no label, and different types never share a label. *)
Theorem X19_types_strings_labels (self : Nback) :
  n self ≠ FILLER →
  types_strings self !! n self = Some "target" ∧
  types_strings self !! FILLER = Some "filler" ∧
  (∀ d, d ∈ dom (lures self) → d ≠ n self → d ≠ FILLER →
        types_strings self !! d = Some (pretty d +:+ "lure")) ∧
  (∀ d, d ∉ dom (lures self) → d ≠ n self → d ≠ FILLER →
        types_strings self !! d = None) ∧
  (∀ a b label, types_strings self !! a = Some label →
                types_strings self !! b = Some label → a = b).
Proof.
  intros Hnf. split_and!.
  - rewrite types_strings_lookup. by rewrite decide_True.
  - rewrite types_strings_lookup. rewrite decide_False by done.
    by rewrite decide_True.
  - intros d Hd Hn Hf. rewrite types_strings_lookup.
    by rewrite !decide_False, decide_True by done.
  - intros d Hd Hn Hf. rewrite types_strings_lookup.
    by rewrite !decide_False by done.
  - intros a b label. rewrite !types_strings_lookup.
    intros Ha Hb. rewrite <- Hb in Ha.
    repeat case_decide; try congruence; try done;
      injection Ha as Ha;
      try (by destruct (lure_label_other (pretty a)));
      try (symmetry in Ha; by destruct (lure_label_other (pretty b))).
    apply string_app_inj_r in Ha. by apply (inj pretty) in Ha.
Qed.

Lemma X19_types_strings_labels_witness :
  types_strings Demo.finished !! 2 = Some "target" ∧
  types_strings Demo.finished !! FILLER = Some "filler" ∧
  (∀ d, d ∈ dom (lures Demo.finished) → d ≠ 2 → d ≠ FILLER →
        types_strings Demo.finished !! d = Some (pretty d +:+ "lure")) ∧
  (∀ d, d ∉ dom (lures Demo.finished) → d ≠ 2 → d ≠ FILLER →
        types_strings Demo.finished !! d = None) ∧
  (∀ a b label, types_strings Demo.finished !! a = Some label →
                types_strings Demo.finished !! b = Some label → a = b).
Proof. apply (X19_types_strings_labels Demo.finished). vm_compute. done. Defined.

(** ** Printing and writing *)

Lemma join_lines_snoc (lines : list string) (line : string) :
  join_lines (lines ++ [line]) = join_lines lines +:+ line +:+ newline.
Proof.
  unfold join_lines. induction lines as [|x lines IH]; simpl.
  - by rewrite string_app_nil_r.
  - rewrite IH. by rewrite !string_app_assoc.
Qed.

Lemma write_rows_print_rows (self : Nback) (row : Z) (items : list pitem)
    (out : list string) :
  write_rows self row items (join_lines out)
  = (join_lines (print_rows self row items out).1,
     (print_rows self row items out).2).
Proof.
  revert row out. induction items as [|it items IH]; intros row out; simpl;
    [done|].
  destruct (row_text self row it) as [line|e]; [|done].
  by rewrite <- IH, join_lines_snoc.
Qed.

Lemma write_join_print (self : Nback) (items : list pitem) :
  write self items
  = (join_lines (print_sequence self items).1,
     (print_sequence self items).2).
Proof.
  unfold write, print_sequence. rewrite <- write_rows_print_rows.
  unfold join_lines. simpl. by rewrite string_app_nil_r.
Qed.

(** X20: [write] puts into the file exactly the lines that
    [print_sequence] prints, each followed by a newline, and stops with the
    same exception, if any, after the same rows. *)
Theorem X20_write_agrees_with_print_sequence
    (self : Nback) (items : list pitem) :
  write self items
  = (join_lines (print_sequence self items).1,
     (print_sequence self items).2).
Proof. apply write_join_print. Qed.

Lemma first_item_filler (self : Nback) (it : item) (l : list item) :
  wf_items self (it :: l) → type it = FILLER.
Proof.
  intros Hwf.
  destruct (wf_items_lookup self (it :: l) 0 it Hwf eq_refl)
    as [_ (Hin & Hadm & _)].
  rewrite Forall_forall in Hadm.
  destruct (Hadm _ Hin) as [?|(Hpos & Hlen & _)]; [done|].
  unfold len_items in Hlen. simpl in Hlen. lia.
Qed.

(** X21: before [set_words] the stimuli are integers, and the table cannot
    be produced: for a finished sequence that is not empty,
    [print_sequence] prints the header and [write] writes it, and both then
    raise [TypeError] at the first row. *)
Theorem X21_output_before_set_words_fails
    (nn t f : Z) (l : gmap Z Z) (m : Z) (rs : list nat) (s : Nback) :
  generate nn t f l m rs = Some (Ok s) → items s ≠ [] →
  print_sequence s (lift <$> items s)
  = (["Position,ItemType,Stimulus"], Some TypeError) ∧
  write s (lift <$> items s)
  = ("Position,ItemType,Stimulus" +:+ newline, Some TypeError).
Proof.
  intros (T & [(Hn & _) Hwf _ _ _] & _)%generate_Ok Hne.
  assert (Hp : print_sequence s (lift <$> items s)
               = (["Position,ItemType,Stimulus"], Some TypeError)).
  { destruct (items s) as [|it its] eqn:Hits; [done|].
    apply first_item_filler in Hwf.
    unfold print_sequence. simpl. unfold row_text. simpl.
    rewrite types_strings_lookup, Hwf.
    rewrite decide_False by (unfold FILLER; lia).
    by rewrite decide_True. }
  split; [done|].
  rewrite write_join_print, Hp. unfold join_lines. simpl.
  by rewrite string_app_nil_r.
Qed.

Lemma X21_output_before_set_words_fails_witness :
  print_sequence Demo.finished (lift <$> items Demo.finished)
  = (["Position,ItemType,Stimulus"], Some TypeError) ∧
  write Demo.finished (lift <$> items Demo.finished)
  = ("Position,ItemType,Stimulus" +:+ newline, Some TypeError).
Proof.
  apply (X21_output_before_set_words_fails 2 1 2 {[1 := 1]} 0
           [0; 2; 1; 0]%nat Demo.finished).
  - vm_compute. reflexivity.
  - vm_compute. done.
Defined.

Lemma print_rows_ok (self : Nback) (row : Z) (items : list pitem)
    (out : list string) :
  (∀ pit, pit ∈ items →
          is_Some (types_strings self !! ptype pit) ∧
          ∃ w, pstim pit = WordStim w) →
  ∃ rows,
    print_rows self row items out = (out ++ rows, None) ∧
    length rows = length items ∧
    ∀ i pit, items !! i = Some pit →
      ∃ label w,
        types_strings self !! ptype pit = Some label ∧
        pstim pit = WordStim w ∧
        rows !! i
        = Some (pretty (row + Z.of_nat i) +:+ "," +:+ label +:+ "," +:+ w).
Proof.
  revert row out. induction items as [|it items IH]; intros row out Hall.
  - exists []. simpl. by rewrite app_nil_r.
  - destruct (Hall it) as [[label Hlabel] [w Hw]]; [by left|].
    simpl. unfold row_text. rewrite Hlabel, Hw.
    destruct (IH (row + 1) (out ++
                [pretty row +:+ "," +:+ label +:+ "," +:+ w]))
      as (rows & -> & Hlen & Hrows); [intros x Hx; apply Hall; by right|].
    eexists (_ :: rows). rewrite <- app_assoc. split; [done|].
    split; [simpl; by rewrite Hlen|].
    intros [|i] pit Hi; simpl in Hi.
    + injection Hi as <-. exists label, w. rewrite Z.add_0_r. by split_and!.
    + destruct (Hrows i pit Hi) as (lab & w' & ? & ? & Hr).
      exists lab, w'. split_and!; try done. simpl. rewrite Hr.
      do 3 f_equal. lia.
Qed.

Lemma set_words_Ok_inv
    (nn t f : Z) (l : gmap Z Z) (m : Z) (rs : list nat) (s : Nback)
    (wordlist shuffled rest printed : list string) (randomize : bool)
    (its : list pitem) :
  generate nn t f l m rs = Some (Ok s) →
  set_words s wordlist shuffled randomize = WOk (its, rest, printed) →
  ∃ selected, NoDup selected ∧ Forall2 (worded selected) (items s) its.
Proof.
  intros Hgen Hset.
  destruct (decide (Z.of_nat (length (remove_dups
              (if randomize then shuffled else wordlist))) < f)) as [Hlt|Hge].
  { exfalso. revert Hset. unfold set_words.
    apply generate_Ok in Hgen as (_ & _ & _ & _ & _ & -> & _).
    unfold set_words_items. rewrite reverse_involutive.
    pose proof (select_words_spec f (if randomize then shuffled else wordlist)
                  [] [] NoDup_nil_2) as H.
    simpl in H. rewrite decide_True in H by done. by rewrite H. }
  destruct (set_words_generated _ _ _ _ _ _ _ wordlist shuffled randomize
              Hgen ltac:(lia))
    as (sel & its' & rest' & pr' & Hs & Hnd & Hlen & _ & Hits).
  rewrite Hs in Hset. injection Hset as -> _ _. eauto.
Qed.

(** X22: after [set_items] and [set_words], [print_sequence] prints the
    header and one row for every item and raises nothing; the row of the
    item at position [i] is its number [i + 1], the label of its type and
    its word, joined by commas. *)
Theorem X22_print_sequence_rows
    (nn t f : Z) (l : gmap Z Z) (m : Z) (rs : list nat) (s : Nback)
    (wordlist shuffled rest printed : list string) (randomize : bool)
    (its : list pitem) :
  generate nn t f l m rs = Some (Ok s) →
  set_words s wordlist shuffled randomize = WOk (its, rest, printed) →
  ∃ rows,
    print_sequence s its = ("Position,ItemType,Stimulus" :: rows, None) ∧
    length rows = length (items s) ∧
    ∀ i pit, its !! i = Some pit →
      ∃ label w,
        types_strings s !! ptype pit = Some label ∧
        pstim pit = WordStim w ∧
        rows !! i
        = Some (pretty (Z.of_nat i + 1) +:+ "," +:+ label +:+ "," +:+ w).
Proof.
  intros Hgen Hset.
  destruct (set_words_Ok_inv _ _ _ _ _ _ _ _ _ _ _ _ _ Hgen Hset)
    as (sel & _ & Hits).
  apply generate_Ok in Hgen as (T & [(Hn & _) Hwf _ _ _] & _).
  destruct (print_rows_ok s 1 its ["Position,ItemType,Stimulus"])
    as (rows & Hrows & Hlen & Hrow).
  { intros pit [i Hi]%list_elem_of_lookup.
    destruct (Forall2_lookup_r _ _ _ _ _ Hits Hi) as (it & Hit & w & _ & ->).
    simpl. split; [|eauto].
    destruct (wf_items_lookup _ _ _ _ Hwf Hit) as [_ (Hin & Hadm & _)].
    rewrite Forall_forall in Hadm.
    pose proof (admissible_static _ _ (Hadm _ Hin)) as Hst. simpl in Hst.
    rewrite types_strings_lookup. repeat case_decide; eauto.
    destruct Hst as [?|[?|?]]; done. }
  exists rows. split; [done|]. split.
  - rewrite Hlen. symmetry. by eapply Forall2_length.
  - intros i pit Hi. destruct (Hrow i pit Hi) as (label & w & ? & ? & Hr).
    exists label, w. split_and!; try done. rewrite Hr. do 3 f_equal. lia.
Qed.

Lemma X22_print_sequence_rows_witness :
  ∃ rows,
    print_sequence Demo.finished DemoWords.items
    = ("Position,ItemType,Stimulus" :: rows, None) ∧
    length rows = length (items Demo.finished) ∧
    ∀ i pit, DemoWords.items !! i = Some pit →
      ∃ label w,
        types_strings Demo.finished !! ptype pit = Some label ∧
        pstim pit = WordStim w ∧
        rows !! i
        = Some (pretty (Z.of_nat i + 1) +:+ "," +:+ label +:+ "," +:+ w).
Proof.
  apply (X22_print_sequence_rows 2 1 2 {[1 := 1]} 0 [0; 2; 1; 0]%nat
           Demo.finished ["a"; "b"; "a"; "c"] [] ["c"; "a"] [] false
           DemoWords.items).
  - vm_compute. reflexivity.
  - vm_compute. reflexivity.
Defined.

End OutputFacts.
